(** * road_inspect: detection deduplication, enrichment throttle, record store

    A shallow embedding of the parts of [detection_service.py],
    [analysis_service.py], [database_service.py] and [run_service.py] that
    decide which detections survive a frame, when a track is sent for
    analysis, how the analysis reply is parsed and how a detection is
    persisted.  Part I holds the model, one module per source file; Part II
    holds the facts proved about it.

    Conventions.
    - Python floats (and numpy float32/float64 values) are Rocq's primitive
      binary64 floats; every float32 is a binary64 value, and the only
      float32 operations the code uses are negation and comparison, which
      are exact.
    - numpy [int64] box coordinates are integers [Z]; subtraction and
      multiplication wrap around as numpy's do ([wrap64]).
    - Python [str] values are [string]s, one [ascii] for each character,
      which is the code point of the character: the model covers the
      strings whose characters are all below U+0100, and works on their
      character lists.
    - Python dicts are [gmap]s.
    - A Python exception that leaves a function is [None] where only one
      kind can occur, and a constructor of the result type otherwise.
    - Calls into the outside world ([time.time()], [datetime.now()], the
      Gemini reply, a started thread) are explicit inputs and outputs of the
      function that makes them.  A thread is an event of its own, but for
      the one point where the code reads what a thread it has just started
      may have written ([with_early_thread]).
    - Images are their shapes: drawing is modelled as far as it can
      raise. *)

From Stdlib Require Import ZArith List Bool Ascii String Floats.
From stdpp Require Import base option list gmap strings pretty.

Set Warnings "-inexact-float".
Open Scope Z_scope.

(** * Part I: the model *)

(** ** Numbers *)

(** Two's-complement reduction of an exact integer result to the range of
    numpy's int64. *)
Definition wrap64 (z : Z) : Z := (z + 2 ^ 63) mod 2 ^ 64 - 2 ^ 63.

(** Conversion of an integer to the nearest binary64 value, as numpy does
    for the operands of [/] on integers. *)
Definition float_of_int (z : Z) : float :=
  SF2Prim (binary_normalize prec emax z 0 false).

(** [a / b] on two numpy int64 scalars is a true division of their binary64
    conversions; [None] stands for a division whose divisor is zero. *)
Definition true_divide (a b : Z) : option float :=
  if b =? 0 then None else Some (PrimFloat.div (float_of_int a) (float_of_int b)).

(** A numpy array as far as the code looks at it: its shape, and its
    elements in row-major order. *)
Record ndarray := { shape : list Z; data : list Z }.

(** [a.size] *)
Definition size (a : ndarray) : Z := fold_right Z.mul 1 (shape a).

(** ** Exceptions *)

(** [Exception_] stands for an instance of any subclass of [Exception];
    [BaseException_] for one of the others ([KeyboardInterrupt],
    [SystemExit], [GeneratorExit]). *)
Inductive py_exception :=
| Exception_ (msg : string)
| BaseException_ (msg : string).

Inductive outcome (A : Type) :=
| Returns (a : A)
| Raises (e : py_exception).
Arguments Returns {A} a.
Arguments Raises {A} e.

(** ** config.py *)
Module config.
Definition CONFIDENCE_THRESHOLD : float := 0.5.
Definition OVERLAP_THRESHOLD : float := 50.
Definition FRAME_SKIP_INTERVAL : Z := 3.
Definition TARGET_WIDTH : Z := 700.
Definition TARGET_HEIGHT : Z := 800.
Definition ANALYSIS_INTERVAL : float := 5.
End config.

(** ** Text: [str.strip], [str.lower] and the [re] module *)
Module text.

(** [c.isspace()], which is also the class [\s] of [re], for a character
    below U+0100: tab to carriage return, the four separators 0x1c to 0x1f,
    the space, the next-line control 0x85 and the no-break space 0xa0. *)
Definition is_space (c : ascii) : bool :=
  let n := N_of_ascii c in
  (((9 <=? n) && (n <=? 13)) || ((28 <=? n) && (n <=? 32))
   || (n =? 133) || (n =? 160))%N.

(** [c.lower()] for a character below U+0100: the letters A to Z, and the
    capital letters 0xc0 to 0xde of Latin-1 (0xd7, the multiplication sign,
    is none), have their small letter 32 places on. *)
Definition lower_char (c : ascii) : ascii :=
  let n := N_of_ascii c in
  if (((65 <=? n) && (n <=? 90))
      || ((192 <=? n) && (n <=? 222) && negb (n =? 215)))%N
  then ascii_of_N (n + 32) else c.

Definition lower (s : list ascii) : list ascii := map lower_char s.

Fixpoint lstrip (s : list ascii) : list ascii :=
  match s with
  | c :: s' => if is_space c then lstrip s' else s
  | [] => []
  end.

Definition rstrip (s : list ascii) : list ascii := rev (lstrip (rev s)).

Definition strip (s : list ascii) : list ascii := rstrip (lstrip s).

(** The fragment of regular expressions the two patterns are written in. *)
Inductive atom :=
| Chr (c : ascii)        (* a literal character *)
| Whitespace             (* \s *)
| Dot.                   (* .  *)

Inductive regex :=
| Eps                    (* the empty pattern *)
| Atom (a : atom)
| Cat (r1 r2 : regex)    (* r1 r2 *)
| Alt (r1 r2 : regex)    (* r1|r2, r1 tried first *)
| Star (a : atom)        (* a*, greedy *)
| Plus (a : atom)        (* a+, greedy *)
| Group (r : regex).     (* (r), the capturing group *)

Record flags := { IGNORECASE : bool; DOTALL : bool }.

Fixpoint lit (s : list ascii) : regex :=
  match s with
  | [] => Eps
  | c :: s' => Cat (Atom (Chr c)) (lit s')
  end.

Definition newline : ascii := ascii_of_N 10.

(** With [re.IGNORECASE], [re] compares the lower-case forms of the two
    characters, and besides takes a few characters for one another that
    are all at or above U+0100 ([U+0131] for i, [U+017F] for s, [U+212A]
    for k, ...). *)
Definition atom_matches (f : flags) (a : atom) (c : ascii) : bool :=
  match a with
  | Chr x =>
      if IGNORECASE f then bool_decide (lower_char c = lower_char x)
      else bool_decide (c = x)
  | Whitespace => is_space c
  | Dot => DOTALL f || negb (bool_decide (c = newline))
  end.

(** A match object is the text of group 1, or [None] when the group took
    no part in the match. *)
Definition match_object : Type := option (list ascii).

(** Greedy repetition with backtracking: the longest run is tried first,
    and one character is given back each time the rest of the pattern
    fails. *)
Fixpoint star_match (f : flags) (a : atom) (s : list ascii)
    (k : list ascii -> option match_object) : option match_object :=
  match s with
  | c :: s' =>
      if atom_matches f a c
      then match star_match f a s' k with
           | Some m => Some m
           | None => k s
           end
      else k s
  | [] => k []
  end.

(** Backtracking matcher in continuation-passing style: [k] is the rest of
    the pattern, applied to the rest of the text and the group captured so
    far. *)
Fixpoint re_match (f : flags) (r : regex) (s : list ascii) (cap : match_object)
    (k : list ascii -> match_object -> option match_object)
    : option match_object :=
  match r with
  | Eps => k s cap
  | Atom a =>
      match s with
      | c :: s' => if atom_matches f a c then k s' cap else None
      | [] => None
      end
  | Cat r1 r2 => re_match f r1 s cap (λ s1 cap1, re_match f r2 s1 cap1 k)
  | Alt r1 r2 =>
      match re_match f r1 s cap k with
      | Some m => Some m
      | None => re_match f r2 s cap k
      end
  | Star a => star_match f a s (λ s', k s' cap)
  | Plus a =>
      match s with
      | c :: s' =>
          if atom_matches f a c then star_match f a s' (λ s'', k s'' cap)
          else None
      | [] => None
      end
  | Group r1 =>
      re_match f r1 s cap
        (λ s' _, k s' (Some (take (length s - length s') s)))
  end.

(** [re.match]: the pattern anchored at the start of [s]. *)
Definition match_here (f : flags) (r : regex) (s : list ascii)
    : option match_object :=
  re_match f r s None (λ _ cap, Some cap).

(** [re.search]: the leftmost position at which the pattern matches. *)
Fixpoint search (f : flags) (r : regex) (s : list ascii) : option match_object :=
  match match_here f r s with
  | Some m => Some m
  | None =>
      match s with
      | [] => None
      | _ :: s' => search f r s'
      end
  end.

End text.

(** ** analysis_service.py *)
Module analysis_service.
Import text.

Record AnalysisService := {
  last_sent_times : gmap Z float;
  track_results : gmap Z (gmap string string)
}.

(** [AnalysisService()], without the Gemini client. *)
Definition init : AnalysisService :=
  {| last_sent_times := ∅; track_results := ∅ |}.

(** The dict literal [{"severity": s, "recommendation": r}]. *)
Definition verdict (s r : string) : gmap string string :=
  <["severity" := s]> (<["recommendation" := r]> ∅).

(** [response.content] is a string, or a list of content parts.  [Text]
    holds the strings of the model: those whose characters are all below
    U+0100. *)
Inductive content :=
| Text (s : string)
| Parts.

(** What [self.gemini_model.invoke([message])] does. *)
Inductive invoke_result :=
| Responds (c : content)
| Fails (e : py_exception).

(** r'Severity:\s*(low|medium|high)' *)
Definition severity_pattern : regex :=
  Cat (lit (list_ascii_of_string "Severity:"))
    (Cat (Star Whitespace)
       (Group (Alt (lit (list_ascii_of_string "low"))
                 (Alt (lit (list_ascii_of_string "medium"))
                    (lit (list_ascii_of_string "high")))))).

(** r'Recommendation:\s*(.+)' *)
Definition recommendation_pattern : regex :=
  Cat (lit (list_ascii_of_string "Recommendation:"))
    (Cat (Star Whitespace) (Group (Plus Dot))).

(** [m.group(1)] followed by a [str] method: an [AttributeError] when the
    group is [None]. *)
Definition group1 (m : match_object) (method : list ascii -> list ascii)
    : outcome string :=
  match m with
  | Some g => Returns (string_of_list_ascii (method g))
  | None => Raises (Exception_ "'NoneType' object has no attribute")
  end.

(** Lines 43 to 51: from the stripped reply to the dict that is stored. *)
Definition parse_result (result : list ascii) : outcome (gmap string string) :=
  let severity_match :=
    search {| IGNORECASE := true; DOTALL := false |} severity_pattern result in
  let recommendation_match :=
    search {| IGNORECASE := true; DOTALL := true |} recommendation_pattern result in
  match (match severity_match with
         | Some m => group1 m lower
         | None => Returns "medium"
         end) with
  | Raises e => Raises e
  | Returns severity =>
      match (match recommendation_match with
             | Some m => group1 m strip
             | None => Returns "Schedule inspection"
             end) with
      | Raises e => Raises e
      | Returns recommendation => Returns (verdict severity recommendation)
      end
  end.

(** The body of the [try] block, given what the call to Gemini did.  The
    prompt and the message only shape the request. *)
Definition try_block (response : invoke_result) : outcome (gmap string string) :=
  match response with
  | Fails e => Raises e
  | Responds Parts => Raises (Exception_ "'list' object has no attribute 'strip'")
  | Responds (Text s) => parse_result (strip (list_ascii_of_string s))
  end.

(** The line printed by the [except] block. *)
Definition gemini_error_line (track_id : Z) (msg : string) : string :=
  "[Track " +:+ pretty track_id +:+ "] Gemini Error: " +:+ msg.

(** Returns the service after the call and the lines printed. *)
Definition analyze_damage_with_gemini (self : AnalysisService)
    (response : invoke_result) (base64_image : string) (track_id : Z)
    (damage_type : string) : outcome (AnalysisService * list string) :=
  match try_block response with
  | Returns v =>
      Returns ({| last_sent_times := last_sent_times self;
                  track_results := <[track_id := v]> (track_results self) |},
               [])
  | Raises (Exception_ msg) =>
      Returns ({| last_sent_times := last_sent_times self;
                  track_results :=
                    <[track_id := verdict "medium" "Schedule inspection"]>
                      (track_results self) |},
               [gemini_error_line track_id msg])
  | Raises (BaseException_ msg) => Raises (BaseException_ msg)
  end.

(** The arguments of a started thread whose target is
    [analyze_damage_with_gemini]. *)
Record thread_args := {
  arg_base64_image : string;
  arg_track_id : Z;
  arg_damage_type : string
}.

(** The service once a thread with the arguments [thread] has run
    [analyze_damage_with_gemini] to its end, [response] being what its call
    to Gemini did.  A thread that an exception leaves has written
    nothing. *)
Definition thread_run (self : AnalysisService) (response : invoke_result)
    (thread : thread_args) : AnalysisService :=
  match analyze_damage_with_gemini self response (arg_base64_image thread)
          (arg_track_id thread) (arg_damage_type thread) with
  | Returns (self1, _) => self1
  | Raises _ => self
  end.

(** The service a call of [process_detection] reads its result from.  The
    read of [track_results] comes after [Thread.start()]: when the call has
    started a thread, that thread may have run to its end by then, and
    [early] is what its call to Gemini did if it has. *)
Definition with_early_thread (self : AnalysisService)
    (started : option thread_args) (early : option invoke_result)
    : AnalysisService :=
  match started, early with
  | Some thread, Some response => thread_run self response thread
  | _, _ => self
  end.

Section process_detection.

(** [config.ANALYSIS_INTERVAL]. *)
Variable ANALYSIS_INTERVAL : float.
(** [cv2.imencode] followed by [base64.b64encode]. *)
Variable encode_image_to_base64 : ndarray -> string.

(** [current_time] is the value of [time.time()]; the three arguments
    after it are the entries of the [detection] dict that are read; for
    [early] see [with_early_thread].  Returns the service as the statements
    of [process_detection] leave it (what a thread writes is an event of
    its own), the thread started if any, and the result. *)
Definition process_detection (self : AnalysisService) (current_time : float)
    (track_id : Z) (damage_type : string) (crop : ndarray)
    (early : option invoke_result)
    : AnalysisService * option thread_args * option (gmap string string) :=
  let last_time := default 0%float (last_sent_times self !! track_id) in
  let '(self1, started) :=
    if PrimFloat.ltb ANALYSIS_INTERVAL (PrimFloat.sub current_time last_time)
       && (0 <? size crop)
    then
      ({| last_sent_times := <[track_id := current_time]> (last_sent_times self);
          track_results := track_results self |},
       Some {| arg_base64_image := encode_image_to_base64 crop;
               arg_track_id := track_id;
               arg_damage_type := damage_type |})
    else (self, None) in
  (self1, started,
   track_results (with_early_thread self1 started early) !! track_id).

End process_detection.

End analysis_service.

(** ** The contract of [np.argsort]

    [filter_overlapping_detections] orders the detections with
    [np.argsort(-confidences)], called with numpy's default sorting kind.
    numpy documents the result as an index array that sorts its argument and
    does not promise a stable order for the default kind, so the sort is a
    parameter of the model, constrained only by [is_argsort]: the result is
    a permutation of [range(len(keys))] along which the keys never
    decrease. *)

Fixpoint ascending (ks : list float) : bool :=
  match ks with
  | [] => true
  | k :: rest => forallb (PrimFloat.leb k) rest && ascending rest
  end.

Definition is_argsort (keys : list float) (idx : list nat) : bool :=
  bool_decide (idx ≡ₚ seq 0 (length keys))
  && match mapM (λ i, keys !! i) idx with
     | Some ks => ascending ks
     | None => false
     end.

(** Two sorting routines that meet the contract, to run the model on
    concrete frames: an insertion sort that keeps equal keys in input order,
    as [np.argsort] does on two detections, and one that puts the later of
    two equal keys first, as [np.argsort] does where its vectorised sort
    moves equal keys past each other. *)
Fixpoint insert_index (before : float -> float -> bool) (keys : list float)
    (i : nat) (sorted : list nat) : list nat :=
  match sorted with
  | [] => [i]
  | j :: rest =>
      match keys !! i, keys !! j with
      | Some ki, Some kj =>
          if before ki kj then i :: j :: rest
          else j :: insert_index before keys i rest
      | _, _ => i :: j :: rest
      end
  end.

Definition argsort_with (before : float -> float -> bool) (keys : list float)
    : list nat :=
  fold_left (λ sorted i, insert_index before keys i sorted)
            (seq 0 (length keys)) [].

Definition argsort_first_wins : list float -> list nat :=
  argsort_with PrimFloat.ltb.

Definition argsort_last_wins : list float -> list nat :=
  argsort_with PrimFloat.leb.

(** ** detection_service.py *)
Module detection_service.
Import analysis_service.

(** A box is the tuple [(x1, y1, x2, y2)]. *)
Definition box : Type := Z * Z * Z * Z.

Definition calculate_overlap_percentage (box1 box2 : box) : option float :=
  let '(x1_1, y1_1, x2_1, y2_1) := box1 in
  let '(x1_2, y1_2, x2_2, y2_2) := box2 in
  let x1_inter := Z.max x1_1 x1_2 in
  let y1_inter := Z.max y1_1 y1_2 in
  let x2_inter := Z.min x2_1 x2_2 in
  let y2_inter := Z.min y2_1 y2_2 in
  if (x2_inter <=? x1_inter) || (y2_inter <=? y1_inter) then Some 0%float
  else
    let intersection_area :=
      wrap64 (wrap64 (x2_inter - x1_inter) * wrap64 (y2_inter - y1_inter)) in
    let box1_area := wrap64 (wrap64 (x2_1 - x1_1) * wrap64 (y2_1 - y1_1)) in
    let box2_area := wrap64 (wrap64 (x2_2 - x1_2) * wrap64 (y2_2 - y1_2)) in
    let smaller_area := Z.min box1_area box2_area in
    if 0 <? smaller_area
    then q ← true_divide intersection_area smaller_area;
         Some (PrimFloat.mul q 100%float)
    else Some 0%float.

Section filter_overlapping_detections.

Variable argsort : list float -> list nat.
(** [self.overlap_threshold] *)
Variable overlap_threshold : float.

(** The inner loop over [keep_indices]: the value of [keep_current] when
    the loop ends or breaks.  [None] is an exception. *)
Fixpoint keep_current_loop (boxes : list box) (class_ids : list Z)
    (current_box : box) (current_class : Z) (keep_indices : list nat)
    : option bool :=
  match keep_indices with
  | [] => Some true
  | kept_idx :: rest =>
      kept_box ← boxes !! kept_idx;
      kept_class ← class_ids !! kept_idx;
      if negb (current_class =? kept_class)
      then keep_current_loop boxes class_ids current_box current_class rest
      else
        overlap_percent ← calculate_overlap_percentage current_box kept_box;
        if PrimFloat.ltb overlap_threshold overlap_percent
        then Some false
        else keep_current_loop boxes class_ids current_box current_class rest
  end.

(** The outer loop over [sorted_indices], started with the given
    [keep_indices]; [None] is an [IndexError]. *)
Fixpoint resolve_loop (boxes : list box) (class_ids : list Z)
    (sorted_indices keep_indices : list nat) : option (list nat) :=
  match sorted_indices with
  | [] => Some keep_indices
  | i :: rest =>
      current_box ← boxes !! i;
      current_class ← class_ids !! i;
      keep_current ←
        keep_current_loop boxes class_ids current_box current_class keep_indices;
      resolve_loop boxes class_ids rest
        (if keep_current : bool then keep_indices ++ [i] else keep_indices)
  end.

(** [a[keep_indices]]: numpy indexing of an array by a list of indices. *)
Definition index_by {A} (a : list A) (keep_indices : list nat) : option (list A) :=
  mapM (λ i, a !! i) keep_indices.

(** The value of [keep_indices] when the outer loop is over. *)
Definition kept_indices (boxes : list box) (confidences : list float)
    (class_ids : list Z) : option (list nat) :=
  let sorted_indices := argsort (map PrimFloat.opp confidences) in
  resolve_loop boxes class_ids sorted_indices [].

Definition filter_overlapping_detections (boxes : list box)
    (confidences : list float) (track_ids class_ids : list Z)
    : option (list box * list float * list Z * list Z) :=
  if (length boxes =? 0)%nat
  then Some (boxes, confidences, track_ids, class_ids)
  else
    keep_indices ← kept_indices boxes confidences class_ids;
    kept_boxes ← index_by boxes keep_indices;
    kept_confidences ← index_by confidences keep_indices;
    kept_track_ids ← index_by track_ids keep_indices;
    kept_class_ids ← index_by class_ids keep_indices;
    Some (kept_boxes, kept_confidences, kept_track_ids, kept_class_ids).

End filter_overlapping_detections.

Definition color : Type := Z * Z * Z.

Definition get_severity_color (severity : string) : color :=
  if bool_decide (severity = "low") then (0, 255, 0)
  else if bool_decide (severity = "medium") then (255, 255, 0)
  else (255, 0, 0).

(** Lines 169 to 177 of [process_frame]: the severity, recommendation and
    colour shown for a detection, from what [process_detection] returned.
    A dict is true when it is not empty. *)
Definition shown_analysis (analysis_result : option (gmap string string))
    : string * string * color :=
  match analysis_result with
  | Some d =>
      if bool_decide (d = ∅) then ("low", "Analyzing...", (200, 200, 200))
      else
        let severity := default "medium" (d !! "severity") in
        let recommendation := default "No recommendation" (d !! "recommendation") in
        (severity, recommendation, get_severity_color severity)
  | None => ("low", "Analyzing...", (200, 200, 200))
  end.

(** An entry of the list [process_frame] returns. *)
Record detection := {
  track_id : Z;
  class_name : string;
  box_ : box;
  confidence : float;
  severity : string;
  recommendation : string;
  crop : ndarray
}.

(** The number of indices that the slice [a:b] selects on an axis of
    length [n]: a negative bound counts from the end, and both bounds are
    clipped to the axis. *)
Definition slice_length (n a b : Z) : Z :=
  let clip i := if i <? 0 then Z.max 0 (i + n) else Z.min i n in
  Z.max 0 (clip b - clip a).

(** How the body of the loop of [process_frame] ends for one detection. *)
Inductive body_end :=
| Continue                   (* the class is not one of the two reported *)
| Append (d : detection)     (* [detections.append(...)] *)
| KeyError                   (* the class id has no name *)
| TypeError.                 (* a text could not be drawn *)

Section process_frame.

Variable ANALYSIS_INTERVAL : float.
Variable encode_image_to_base64 : ndarray -> string.
(** [config.TARGET_WIDTH] and [config.TARGET_HEIGHT]: [process_frame]
    resizes every frame to this size first. *)
Variables TARGET_WIDTH TARGET_HEIGHT : Z.
(** [cv2.getTextSize(text, font, font_scale, thickness)[0]] for the font,
    scale and thickness of the three calls: the width and the height of the
    text. *)
Variable getTextSize : string -> Z * Z.
(** [str.upper]; it only shapes texts that are drawn. *)
Variable upper : string -> string.
(** [self.class_names] *)
Variable class_names : gmap Z string.

(** [draw_high_quality_text] on the resized frame, as far as the call can
    end: [true] when it returns.  The pixels are not modelled.  The region
    [img[bg_y1:bg_y2, bg_x1:bg_x2]] is blended with the overlay and written
    back; when the region has no pixels (a bound at the left or top edge is
    negative and the slice wraps around, or the region lies outside the
    frame), [cv2.addWeighted] returns [None] and the assignment of line 107
    raises a [TypeError].  The position is made of numpy int64 scalars. *)
Definition draw_high_quality_text (text : string) (position : Z * Z) : bool :=
  let '(x, y) := position in
  let '(text_width, text_height) := getTextSize text in
  let padding := 5 in
  let bg_x1 := wrap64 (x - padding) in
  let bg_y1 := wrap64 (wrap64 (y - text_height) - padding) in
  let bg_x2 := wrap64 (wrap64 (x + text_width) + padding) in
  let bg_y2 := wrap64 (y + padding) in
  (0 <? slice_length TARGET_HEIGHT bg_y1 bg_y2)
  && (0 <? slice_length TARGET_WIDTH bg_x1 bg_x2).

(** The body of the loop of [process_frame] for one filtered detection:
    [crop_] is [frame[y1:y2, x1:x2]], [current_time] the clock read by
    [process_detection] and [early] its early thread (see
    [with_early_thread]).  Returns the analysis service as the body leaves
    it, the thread it started if any, and how it ended.  [cv2.rectangle]
    only changes pixels. *)
Definition process_frame_body (analysis : AnalysisService)
    (current_time : float) (early : option invoke_result) (crop_ : ndarray)
    (track_id_ : Z) (b : box) (class_id : Z) (confidence_ : float)
    : AnalysisService * option thread_args * body_end :=
  let '(x1, y1, x2, y2) := b in
  match class_names !! class_id with
  | None => (analysis, None, KeyError)
  | Some name =>
      let class_name_ :=
        string_of_list_ascii (text.lower (list_ascii_of_string name)) in
      if bool_decide (class_name_ = "pothole")
         || bool_decide (class_name_ = "broken_edge")
      then
        let label := upper class_name_ +:+ " #" +:+ pretty track_id_ in
        if draw_high_quality_text label (x1, wrap64 (y1 - 10))
        then
          let '(analysis1, started, analysis_result) :=
            process_detection ANALYSIS_INTERVAL encode_image_to_base64
              analysis current_time track_id_ class_name_ crop_ early in
          let '(severity_, recommendation_, _) := shown_analysis analysis_result in
          if draw_high_quality_text ("Severity: " +:+ upper severity_)
               (x1, wrap64 (y1 - 40))
          then
            if draw_high_quality_text recommendation_ (x1, wrap64 (y1 - 70))
            then
              (analysis1, started,
               Append {| track_id := track_id_; class_name := class_name_;
                         box_ := b; confidence := confidence_;
                         severity := severity_;
                         recommendation := recommendation_;
                         crop := crop_ |})
            else (analysis1, started, TypeError)
          else (analysis1, started, TypeError)
        else (analysis, None, TypeError)
      else (analysis, None, Continue)
  end.

End process_frame.

End detection_service.

(** ** database_service.py *)
Module database_service.
Import detection_service.

(** A row of the table [detections].  The TEXT columns [location] and
    [recommendations] hold [json.dumps] of a list of integers and of a
    dict; the model keeps the value that was serialised.  [timestamp] is
    the value of [datetime.now()]. *)
Record row := {
  id : Z;
  row_track_id : Z;
  damage_type : string;
  row_confidence : float;
  location : list Z;
  timestamp : Z;
  image_path : option string;
  recommendations : option (gmap string string)
}.

(** The connection: the table, and the largest id AUTOINCREMENT has given
    out. *)
Record DatabaseService := {
  detections : list row;
  sqlite_sequence : Z
}.

(** [track_id INTEGER UNIQUE] *)
Definition unique_track_ids (self : DatabaseService) : Prop :=
  NoDup (row_track_id <$> detections self).

(** A fresh database file. *)
Definition init : DatabaseService :=
  {| detections := []; sqlite_sequence := 0 |}.

(** [SELECT ... WHERE track_id = ?] followed by [fetchone()]. *)
Definition select_by_track_id (self : DatabaseService) (t : Z) : option row :=
  List.find (λ r, row_track_id r =? t) (detections self).

Definition box_list (b : box) : list Z :=
  let '(x1, y1, x2, y2) := b in [x1; y1; x2; y2].

(** [json.dumps(recommendations) if recommendations else None] *)
Definition rec_json (recommendations_ : option (gmap string string))
    : option (gmap string string) :=
  match recommendations_ with
  | Some d => if bool_decide (d = ∅) then None else Some d
  | None => None
  end.

(** [None] is the [IntegrityError] of the UNIQUE constraint. *)
Definition _insert_detection (self : DatabaseService) (now : Z)
    (d : detection) (recommendations_ : option (gmap string string))
    : option (DatabaseService * Z) :=
  match select_by_track_id self (track_id d) with
  | Some _ => None
  | None =>
      let lastrowid := sqlite_sequence self + 1 in
      Some ({| detections :=
                 detections self ++
                 [{| id := lastrowid;
                     row_track_id := track_id d;
                     damage_type := class_name d;
                     row_confidence := confidence d;
                     location := box_list (box_ d);
                     timestamp := now;
                     image_path := None;
                     recommendations := rec_json recommendations_ |}];
               sqlite_sequence := lastrowid |},
            lastrowid)
  end.

(** [UPDATE detections SET ... WHERE track_id = ?] *)
Definition _update_detection (self : DatabaseService) (now : Z)
    (d : detection) (recommendations_ : option (gmap string string))
    : DatabaseService :=
  {| detections :=
       (λ r, if row_track_id r =? track_id d
             then {| id := id r;
                     row_track_id := row_track_id r;
                     damage_type := class_name d;
                     row_confidence := confidence d;
                     location := box_list (box_ d);
                     timestamp := now;
                     image_path := image_path r;
                     recommendations := rec_json recommendations_ |}
             else r) <$> detections self;
     sqlite_sequence := sqlite_sequence self |}.

(** Returns the database and the id of the row written. *)
Definition save_detection (self : DatabaseService) (now : Z)
    (d : detection) (recommendations_ : option (gmap string string))
    : option (DatabaseService * Z) :=
  match select_by_track_id self (track_id d) with
  | Some existing => Some (_update_detection self now d recommendations_, id existing)
  | None => _insert_detection self now d recommendations_
  end.

(** A track id as it is passed to a query: a Python [int], or a
    [numpy.int64] such as the detections of [process_frame] carry. *)
Inductive query_parameter :=
| py_int (t : Z)
| np_int64 (t : Z).

(** The dict of the six selected columns, or [None].  The parameter goes
    to [cursor.execute] as it comes.  [sqlite3] binds an [int] as an
    INTEGER.  A [numpy.int64] is no [int] and has no adapter; [sqlite3]
    takes its eight bytes through the buffer protocol and binds them as a
    BLOB, and in SQLite a BLOB equals no INTEGER: the query selects no
    row. *)
Definition get_detection_by_track_id (self : DatabaseService)
    (track_id_ : query_parameter)
    : option (Z * string * float * list Z * Z * option (gmap string string)) :=
  match track_id_ with
  | py_int t =>
      (λ r, (row_track_id r, damage_type r, row_confidence r, location r,
             timestamp r, recommendations r)) <$> select_by_track_id self t
  | np_int64 _ => None
  end.

End database_service.

(** ** run_service.py *)
Module run_service.
Import analysis_service detection_service database_service.

Section main.

Variable ANALYSIS_INTERVAL : float.
Variable encode_image_to_base64 : ndarray -> string.

(** The body of [for detection in detections] in [main]: the services
    [analysis_service] and [db_service] before and after, and the thread
    started if any.  [current_time] and [now] are the clock readings of
    [process_detection] and of the database write, [early] the early
    thread of [process_detection].  The detection comes from
    [process_frame], so its track id is a [numpy.int64]; [main] passes it
    to the lookup as it is, while [save_detection] converts it with
    [int]. *)
Definition handle_detection (analysis : AnalysisService) (db : DatabaseService)
    (current_time : float) (now : Z) (early : option invoke_result)
    (d : detection)
    : option (AnalysisService * DatabaseService * option thread_args) :=
  let existing_detection :=
    get_detection_by_track_id db (np_int64 (track_id d)) in
  match existing_detection with
  | None =>
      let '(analysis1, started, analysis_result) :=
        process_detection ANALYSIS_INTERVAL encode_image_to_base64
          analysis current_time (track_id d) (class_name d) (crop d) early in
      '(db1, _) ← save_detection db now d analysis_result;
      Some (analysis1, db1, started)
  | Some _ => Some (analysis, db, None)
  end.

End main.

End run_service.

(** ** Vocabulary of the statements *)

Import text analysis_service detection_service database_service run_service.

(** A box of zero or negative width or height. *)
Definition degenerate (b : box) : Prop :=
  let '(x1, y1, x2, y2) := b in x2 <= x1 \/ y2 <= y1.

(** Two boxes that do not intersect, or only touch. *)
Definition apart (box1 box2 : box) : Prop :=
  let '(x1_1, y1_1, x2_1, y2_1) := box1 in
  let '(x1_2, y1_2, x2_2, y2_2) := box2 in
  x2_1 <= x1_2 \/ x2_2 <= x1_1 \/ y2_1 <= y1_2 \/ y2_2 <= y1_1.

(** The detection at index [k] overlaps the one at index [i], of the same
    class, by more than the threshold: the test of the inner loop of
    [filter_overlapping_detections] that clears [keep_current]. *)
Definition suppresses (overlap_threshold : float) (boxes : list box)
    (class_ids : list Z) (k i : nat) : Prop :=
  ∃ bi bk c overlap_percent,
    boxes !! i = Some bi ∧ boxes !! k = Some bk ∧
    class_ids !! i = Some c ∧ class_ids !! k = Some c ∧
    calculate_overlap_percentage bi bk = Some overlap_percent ∧
    PrimFloat.ltb overlap_threshold overlap_percent = true.

(** The input of [filter_overlapping_detections] is well formed: the four
    arrays describe the same detections, and [np.argsort] kept its
    contract on the negated confidences. *)
Definition resolver_input (argsort : list float -> list nat) (boxes : list box)
    (confidences : list float) (track_ids class_ids : list Z) : Prop :=
  length confidences = length boxes ∧
  length track_ids = length boxes ∧
  length class_ids = length boxes ∧
  is_argsort (map PrimFloat.opp confidences)
             (argsort (map PrimFloat.opp confidences)) = true.

(** Kept detections of equal confidence come out in the order they came
    in: a stable tie-break. *)
Definition ties_in_input_order (confidences : list float)
    (keep_indices : list nat) : Prop :=
  ∀ j1 j2 i1 i2 c,
    (j1 < j2)%nat ->
    keep_indices !! j1 = Some i1 -> keep_indices !! j2 = Some i2 ->
    confidences !! i1 = Some c -> confidences !! i2 = Some c ->
    (i1 < i2)%nat.

(** ** Runs of calls *)

(** A run of calls to [save_detection]; each call comes with the value of
    [datetime.now()], its detection and its recommendations. *)
Fixpoint save_all (self : DatabaseService)
    (calls : list (Z * detection * option (gmap string string)))
    : option DatabaseService :=
  match calls with
  | [] => Some self
  | (now, d, recommendations_) :: rest =>
      '(self1, _) ← save_detection self now d recommendations_;
      save_all self1 rest
  end.

(** The loop [for detection in detections] of [main]: each detection comes
    with the two clock readings its handling makes and the early thread of
    its [process_detection].  Returns the two services and the threads
    started, oldest first. *)
Fixpoint main_for_detections (ANALYSIS_INTERVAL : float)
    (encode_image_to_base64 : ndarray -> string)
    (analysis : AnalysisService) (db : DatabaseService)
    (detections_ : list (float * Z * option invoke_result * detection))
    : option (AnalysisService * DatabaseService * list thread_args) :=
  match detections_ with
  | [] => Some (analysis, db, [])
  | (current_time, now, early, d) :: rest =>
      '(analysis1, db1, started) ←
        handle_detection ANALYSIS_INTERVAL encode_image_to_base64
          analysis db current_time now early d;
      '(analysis2, db2, threads) ←
        main_for_detections ANALYSIS_INTERVAL encode_image_to_base64
          (with_early_thread analysis1 started early) db1 rest;
      Some (analysis2, db2, option_list started ++ threads)
  end.

(** What happens to an [AnalysisService] over time: a call of
    [process_detection], with the thread it starts running to its end
    before the call returns or not, or a thread started earlier running
    [analyze_damage_with_gemini] to its end. *)
Inductive event :=
| Observed (current_time : float) (track_id_ : Z) (damage_type_ : string)
    (crop_ : ndarray) (early : option invoke_result)
| Completed (response : invoke_result) (thread : thread_args).

(** A run of events: the service at the end, and the threads started, each
    with the time of its dispatch, oldest first.  A thread that an
    exception leaves has written nothing. *)
Fixpoint run_events (ANALYSIS_INTERVAL : float)
    (encode_image_to_base64 : ndarray -> string)
    (self : AnalysisService) (events : list event)
    : AnalysisService * list (float * thread_args) :=
  match events with
  | [] => (self, [])
  | Observed current_time track_id_ damage_type_ crop_ early :: rest =>
      let '(self1, started, _) :=
        process_detection ANALYSIS_INTERVAL encode_image_to_base64
          self current_time track_id_ damage_type_ crop_ early in
      let '(self2, dispatches) :=
        run_events ANALYSIS_INTERVAL encode_image_to_base64
          (with_early_thread self1 started early) rest in
      (self2,
       match started with
       | Some thread => (current_time, thread) :: dispatches
       | None => dispatches
       end)
  | Completed response thread :: rest =>
      run_events ANALYSIS_INTERVAL encode_image_to_base64
        (thread_run self response thread) rest
  end.

(** Each dispatch of the list is due, given the dispatch times [times]
    before the list and the dispatches before it in the list. *)
Fixpoint each_due (ANALYSIS_INTERVAL : float) (times : gmap Z float)
    (dispatches : list (float * thread_args)) : Prop :=
  match dispatches with
  | [] => True
  | (t, thread) :: rest =>
      PrimFloat.ltb ANALYSIS_INTERVAL
        (PrimFloat.sub t (default 0%float (times !! arg_track_id thread))) = true ∧
      each_due ANALYSIS_INTERVAL (<[arg_track_id thread := t]> times) rest
  end.

(** ** Labels in a reply *)

(** [s] begins with the characters of [w], letters compared without
    regard to case. *)
Fixpoint starts_with (w s : list ascii) : bool :=
  match w, s with
  | [], _ => true
  | x :: w', c :: s' =>
      bool_decide (lower_char c = lower_char x) && starts_with w' s'
  | _ :: _, [] => false
  end.

(** The first place where [s] has the label [w] is position [n]. *)
Definition first_at (w s : list ascii) (n : nat) : Prop :=
  starts_with w (drop n s) = true ∧
  ∀ j, (j < n)%nat -> starts_with w (drop j s) = false.

(** [s] has the label [w] nowhere. *)
Definition nowhere (w s : list ascii) : Prop :=
  ∀ j, starts_with w (drop j s) = false.

(** One of the three severities at the start of [t], as group 1 would
    capture it. *)
Definition severity_here_word (t : list ascii) : option match_object :=
  if starts_with (list_ascii_of_string "low") t then Some (Some (take 3 t))
  else if starts_with (list_ascii_of_string "medium") t then Some (Some (take 6 t))
  else if starts_with (list_ascii_of_string "high") t then Some (Some (take 4 t))
  else None.

(** The severity pattern at one position: the label, any whitespace, then
    one of the three words. *)
Definition severity_here (s : list ascii) : option match_object :=
  if starts_with (list_ascii_of_string "Severity:") s
  then severity_here_word (lstrip (drop 9 s))
  else None.

(** The flags of the two searches of [analyze_damage_with_gemini]. *)
Definition re_I : flags := {| IGNORECASE := true; DOTALL := false |}.
Definition re_I_S : flags := {| IGNORECASE := true; DOTALL := true |}.

(** Lines 46 and 47 on their own: the value of [severity] and of
    [recommendation] for a stripped reply. *)
Definition severity_field (result : list ascii) : outcome string :=
  match search re_I severity_pattern result with
  | Some m => group1 m lower
  | None => Returns "medium"
  end.

Definition recommendation_field (result : list ascii) : outcome string :=
  match search re_I_S recommendation_pattern result with
  | Some m => group1 m strip
  | None => Returns "Schedule inspection"
  end.

(** The reply of the scenario: the two lines of the format asked for. *)
Definition reply_of_two_lines : string :=
  String.concat (String newline "")
    ["Severity: HIGH"; "Recommendation: Repair immediately."].

(** A reply of three lines, the recommendation on the second. *)
Definition reply_of_three_lines : string :=
  String.concat (String newline "")
    ["Severity: HIGH"; "Recommendation: Repair immediately."; "Thank you."].

(** [str.upper] on the letters a to z, and a text size of 8 by 9 pixels a
    character, to run the model on. *)
Definition upper_a_to_z (s : string) : string :=
  string_of_list_ascii
    (map (λ c, let n := N_of_ascii c in
               if ((97 <=? n) && (n <=? 122))%N then ascii_of_N (n - 32) else c)
         (list_ascii_of_string s)).

Definition text_size_8_by_9 (text : string) : Z * Z :=
  (8 * Z.of_nat (String.length text), 9).

(** A detection of track 7, as [process_frame] returns it before any
    analysis has completed, to run the model on. *)
Definition pothole_7 (conf : float) (b : box) : detection :=
  let '(x1, y1, x2, y2) := b in
  {| track_id := 7; class_name := "pothole"; box_ := b; confidence := conf;
     severity := "low"; recommendation := "Analyzing...";
     crop := {| shape := [y2 - y1; x2 - x1; 3]; data := [] |} |}.

(** * Part II: facts *)

(** ** Float comparison

    The comparisons of primitive floats are specified by [SFcompare] on
    their decoded form; the facts below are what the throttle and the sort
    order need. *)
Module FloatFacts.

Lemma SFcompare_swap (a b : spec_float) :
SFcompare b a = option_map CompOpp (SFcompare a b).
Proof.
destruct a as [sa|sa| |sa ma ea], b as [sb|sb| |sb mb eb]; simpl;
  try reflexivity;
  try (destruct sa; reflexivity); try (destruct sb; reflexivity);
  try (destruct sa, sb; reflexivity).
destruct sa, sb; simpl; try reflexivity;
  rewrite (Z.compare_antisym ea eb);
  destruct (ea ?= eb)%Z; simpl; try reflexivity;
  rewrite ?CompOpp_involutive; f_equal.
- exact (Pos.compare_cont_antisym mb ma Eq).
- symmetry. exact (Pos.compare_cont_antisym ma mb Eq).
Qed.

Lemma SFcompare_opp (a b : spec_float) :
SFcompare (SFopp a) (SFopp b) = SFcompare b a.
Proof.
rewrite (SFcompare_swap a b).
destruct a as [sa|sa| |sa ma ea], b as [sb|sb| |sb mb eb]; simpl;
  try reflexivity;
  try (destruct sa; reflexivity); try (destruct sb; reflexivity);
  try (destruct sa, sb; reflexivity).
destruct sa, sb; simpl; try reflexivity;
  destruct (ea ?= eb)%Z; simpl; try reflexivity;
  rewrite ?CompOpp_involutive; reflexivity.
Qed.

(** [a < b] excludes [b < a]. *)
Lemma ltb_asym (a b : float) :
PrimFloat.ltb a b = true -> PrimFloat.ltb b a = false.
Proof.
rewrite !ltb_spec. unfold SFltb.
rewrite (SFcompare_swap (Prim2SF a) (Prim2SF b)).
destruct (SFcompare (Prim2SF a) (Prim2SF b)) as [[]|]; simpl; congruence.
Qed.

(** Negating both sides reverses [<=]: sorting by [-confidence] ascending
  is sorting by confidence descending. *)
Lemma leb_opp (a b : float) :
PrimFloat.leb (PrimFloat.opp a) (PrimFloat.opp b) = PrimFloat.leb b a.
Proof. rewrite !leb_spec, !opp_spec. unfold SFleb. now rewrite SFcompare_opp. Qed.

End FloatFacts.

(** ** The overlap ratio *)

Example overlap_contained :
  calculate_overlap_percentage (0, 0, 10, 10) (1, 1, 9, 9) = Some 100%float.
Proof. vm_compute. reflexivity. Qed.

Example overlap_half :
  calculate_overlap_percentage (0, 0, 10, 10) (5, 0, 15, 10) = Some 50%float.
Proof. vm_compute. reflexivity. Qed.

(** The division is guarded: its divisor is positive whenever it runs. *)
Lemma overlap_never_divides_by_zero (box1 box2 : box) :
  is_Some (calculate_overlap_percentage box1 box2).
Proof.
  destruct box1 as [[[x1_1 y1_1] x2_1] y2_1], box2 as [[[x1_2 y1_2] x2_2] y2_2].
  unfold calculate_overlap_percentage.
  destruct (_ || _); [eauto|].
  destruct (0 <? _) eqn:Hpos; [|eauto].
  unfold true_divide. apply Z.ltb_lt in Hpos.
  destruct (_ =? 0) eqn:Hz; [apply Z.eqb_eq in Hz; lia|].
  simpl. eauto.
Qed.

Lemma overlap_degenerate (box1 box2 : box) :
  degenerate box1 \/ degenerate box2 ->
  calculate_overlap_percentage box1 box2 = Some 0%float.
Proof.
  destruct box1 as [[[x1_1 y1_1] x2_1] y2_1], box2 as [[[x1_2 y1_2] x2_2] y2_2].
  unfold degenerate, calculate_overlap_percentage. intros Hdeg.
  destruct (_ || _) eqn:Hguard; [reflexivity|].
  apply orb_false_iff in Hguard as [Hx Hy].
  apply Z.leb_gt in Hx, Hy. lia.
Qed.

Lemma overlap_symmetric (box1 box2 : box) :
  calculate_overlap_percentage box1 box2 = calculate_overlap_percentage box2 box1.
Proof.
  destruct box1 as [[[x1_1 y1_1] x2_1] y2_1], box2 as [[[x1_2 y1_2] x2_2] y2_2].
  unfold calculate_overlap_percentage.
  rewrite (Z.max_comm x1_2 x1_1), (Z.max_comm y1_2 y1_1),
    (Z.min_comm x2_2 x2_1), (Z.min_comm y2_2 y2_1).
  rewrite (Z.min_comm (wrap64 (wrap64 (x2_2 - x1_2) * wrap64 (y2_2 - y1_2)))).
  reflexivity.
Qed.

(** ** The two loops of the Overlap Resolver *)
Section resolver_loops.

Variable overlap_threshold : float.
Variables (boxes : list box) (class_ids : list Z).
Hypothesis Hclass_ids : length class_ids = length boxes.

Local Notation "'in_range'" := (Forall (λ k : nat, (k < length boxes)%nat)).
Local Notation "'suppressed_by'" :=
  (suppresses overlap_threshold boxes class_ids).

(** The inner loop clears [keep_current] exactly when one of the kept
    detections suppresses the current one. *)
Lemma keep_current_loop_spec i bi ci keep_indices :
  boxes !! i = Some bi -> class_ids !! i = Some ci ->
  in_range keep_indices ->
  ∃ keep_current,
    keep_current_loop overlap_threshold boxes class_ids bi ci keep_indices
      = Some keep_current ∧
    (keep_current = false ↔ ∃ k, k ∈ keep_indices ∧ suppressed_by k i).
Proof.
  intros Hbi Hci. induction keep_indices as [|k rest IH]; intros Hrange.
  - exists true. split; [reflexivity|]. split; [discriminate|].
    intros (k & Hk & _). by apply elem_of_nil in Hk.
  - apply Forall_cons in Hrange as [Hk Hrest].
    destruct (lookup_lt_is_Some_2 boxes k Hk) as [bk Hbk].
    destruct (lookup_lt_is_Some_2 class_ids k) as [ck Hck]; [lia|].
    destruct (IH Hrest) as (b & Hloop & Hb).
    simpl. rewrite Hbk, Hck. simpl.
    destruct (ci =? ck) eqn:Hclass; simpl.
    + apply Z.eqb_eq in Hclass. subst ck.
      destruct (overlap_never_divides_by_zero bi bk) as [ov Hov].
      rewrite Hov. simpl.
      destruct (PrimFloat.ltb overlap_threshold ov) eqn:Hlt.
      * exists false. split; [reflexivity|]. split; [|reflexivity].
        intros _. exists k. split; [left|].
        by exists bi, bk, ci, ov.
      * exists b. split; [exact Hloop|]. rewrite Hb. split.
        -- intros (k' & Hk' & Hs). exists k'. split; [by right|exact Hs].
        -- intros (k' & Hk' & Hs). apply elem_of_cons in Hk' as [->|Hk'].
           ++ destruct Hs as (bi' & bk' & c & ov' & ? & ? & ? & ? & Hov' & Hlt').
              simplify_eq. congruence.
           ++ by exists k'.
    + apply Z.eqb_neq in Hclass.
      exists b. split; [exact Hloop|]. rewrite Hb. split.
      * intros (k' & Hk' & Hs). exists k'. split; [by right|exact Hs].
      * intros (k' & Hk' & Hs). apply elem_of_cons in Hk' as [->|Hk'].
        -- destruct Hs as (bi' & bk' & c & ov' & ? & ? & ? & ? & _).
           simplify_eq.
        -- by exists k'.
Qed.

(** The outer loop: it never fails on indices in range, it only appends
    indices in the order it meets them, and it drops an index exactly
    when a detection kept before it suppresses it. *)
Lemma resolve_loop_spec sorted_indices keep_indices :
  in_range sorted_indices -> in_range keep_indices ->
  NoDup (keep_indices ++ sorted_indices) ->
  ∃ final,
    resolve_loop overlap_threshold boxes class_ids sorted_indices keep_indices
      = Some final ∧
    (∃ added, final = keep_indices ++ added ∧ added `sublist_of` sorted_indices) ∧
    ∀ pre i post, sorted_indices = pre ++ i :: post ->
      (i ∉ final ↔
       ∃ k, k ∈ final ∧ (k ∈ keep_indices ∨ k ∈ pre) ∧ suppressed_by k i).
Proof.
  revert keep_indices.
  induction sorted_indices as [|j rest IH]; intros keep Hsorted Hkeep Hnodup.
  - exists keep. split; [reflexivity|]. split.
    + exists []. by rewrite app_nil_r.
    + intros pre i post Hsplit. by destruct pre.
  - apply Forall_cons in Hsorted as [Hj Hrest].
    destruct (lookup_lt_is_Some_2 boxes j Hj) as [bj Hbj].
    destruct (lookup_lt_is_Some_2 class_ids j) as [cj Hcj]; [lia|].
    destruct (keep_current_loop_spec j bj cj keep Hbj Hcj Hkeep)
      as (keep_current & Hinner & Hcurrent).
    simpl. rewrite Hbj, Hcj. simpl. rewrite Hinner. simpl.
    apply NoDup_app in Hnodup as (Hnd_keep & Hdisjoint & Hnd_sorted).
    apply NoDup_cons in Hnd_sorted as [Hj_rest Hnd_rest].
    set (keep' := if keep_current then keep ++ [j] else keep).
    assert (Hkeep' : in_range keep').
    { subst keep'. destruct keep_current; [|done].
      apply Forall_app. split; [done|]. by apply Forall_singleton. }
    assert (Hsub : ∀ k, k ∈ keep' -> k ∈ keep ∨ k = j).
    { subst keep'. intros k. destruct keep_current; [|by left].
      rewrite elem_of_app, list_elem_of_singleton. tauto. }
    assert (Hsup : ∀ k, k ∈ keep -> k ∈ keep').
    { subst keep'. intros k Hk. destruct keep_current; [|done].
      apply elem_of_app. by left. }
    assert (Hnodup' : NoDup (keep' ++ rest)).
    { apply NoDup_app. split_and!; [| |done].
      - subst keep'. destruct keep_current; [|done].
        apply NoDup_app. split_and!; [done| |apply NoDup_singleton].
        intros k Hk ->%list_elem_of_singleton.
        apply (Hdisjoint j Hk). by left.
      - intros k Hk Hk_rest. destruct (Hsub k Hk) as [Hk'| ->]; [|done].
        apply (Hdisjoint k Hk'). by right. }
    destruct (IH keep' Hrest Hkeep' Hnodup')
      as (final & Hloop & (added & Hfinal & Hadded) & Hiff).
    exists final. split; [exact Hloop|].
    assert (Hfinal_rest : ∀ k, k ∈ final -> k ∈ keep' ∨ k ∈ rest).
    { intros k. rewrite Hfinal, elem_of_app. intros [?|Hk]; [by left|right].
      by eapply elem_of_sublist. }
    split.
    + subst keep'. destruct keep_current.
      * exists (j :: added). split; [by rewrite Hfinal, <- app_assoc|].
        by apply sublist_skip.
      * exists added. split; [done|]. by apply sublist_cons.
    + intros pre i post Hsplit. destruct pre as [|j' pre'].
      * injection Hsplit as -> ->.
        assert (Hi_final : i ∈ final ↔ keep_current = true).
        { split.
          - intros Hi. destruct (Hfinal_rest i Hi) as [Hi'|Hi']; [|done].
            subst keep'. destruct keep_current; [done|].
            exfalso. apply (Hdisjoint i Hi'). by left.
          - intros ->. rewrite Hfinal. apply elem_of_app. left.
            apply elem_of_app. right. by apply list_elem_of_singleton. }
        rewrite Hi_final. split.
        -- intros Hnot. destruct keep_current; [done|].
           destruct (proj1 Hcurrent eq_refl) as (k & Hk & Hs).
           exists k. split_and!; [|by left|done].
           rewrite Hfinal. apply elem_of_app. left. by apply Hsup.
        -- intros (k & Hk & [Hk'|Hk'] & Hs) ->; [|by apply elem_of_nil in Hk'].
           assert (true = false); [|discriminate].
           apply Hcurrent. by exists k.
      * injection Hsplit as -> ->.
        rewrite (Hiff pre' i post eq_refl). split.
        -- intros (k & Hk & [Hk'|Hk'] & Hs); exists k; split_and!; try done.
           ++ destruct (Hsub k Hk') as [?| ->]; [by left|right; by left].
           ++ right. by right.
        -- intros (k & Hk & [Hk'|Hk'] & Hs); exists k; split_and!; try done.
           ++ left. by apply Hsup.
           ++ apply elem_of_cons in Hk' as [->|Hk']; [|by right].
              left. destruct (Hfinal_rest j' Hk) as [?|?]; done.
Qed.

End resolver_loops.

(** ** What the contract of [np.argsort] gives *)

Lemma ascending_before (l1 l2 : list float) (x y : float) :
  ascending (l1 ++ x :: l2) = true -> y ∈ l1 -> PrimFloat.leb y x = true.
Proof.
  induction l1 as [|z l1 IH]; intros Hasc Hy; [by apply elem_of_nil in Hy|].
  simpl in Hasc. apply andb_true_iff in Hasc as [Hz Hrest].
  apply elem_of_cons in Hy as [->|Hy]; [|by apply IH].
  rewrite forallb_forall in Hz. apply Hz.
  apply in_or_app. right. by left.
Qed.

Lemma is_argsort_perm (keys : list float) (idx : list nat) :
  is_argsort keys idx = true -> idx ≡ₚ seq 0 (length keys).
Proof.
  unfold is_argsort. intros [Hperm _]%andb_true_iff.
  by apply bool_decide_eq_true in Hperm.
Qed.

(** Along the result of the sort, the key of an earlier index is at most
    the key of a later one. *)
Lemma is_argsort_ordered (keys : list float) (pre post : list nat) (i k : nat)
    (x y : float) :
  is_argsort keys (pre ++ i :: post) = true -> k ∈ pre ->
  keys !! i = Some x -> keys !! k = Some y ->
  PrimFloat.leb y x = true.
Proof.
  unfold is_argsort. intros [_ Hasc]%andb_true_iff Hk Hx Hy.
  destruct (mapM _ _) as [ks|] eqn:Hks; [|discriminate].
  apply mapM_Some in Hks.
  apply Forall2_app_inv_l in Hks as (ks1 & ks2 & Hpre & Hrest & ->).
  apply Forall2_cons_inv_l in Hrest as (x' & ks3 & Hx' & _ & ->).
  assert (x' = x) as -> by congruence.
  apply (ascending_before ks1 ks3); [done|].
  apply list_elem_of_lookup in Hk as [p Hp].
  destruct (Forall2_lookup_l _ _ _ _ _ Hpre Hp) as (y' & Hy' & Hky).
  assert (y' = y) as -> by congruence.
  apply list_elem_of_lookup. by exists p.
Qed.

Lemma index_by_spec {A} (a : list A) (idx : list nat) :
  Forall (λ k : nat, (k < length a)%nat) idx ->
  ∃ l, index_by a idx = Some l ∧
       ∀ j i, idx !! j = Some i -> l !! j = a !! i.
Proof.
  intros Hrange. unfold index_by.
  destruct (mapM (λ i, a !! i) idx) as [l|] eqn:Hl.
  - exists l. split; [done|]. intros j i Hj.
    apply mapM_Some in Hl.
    destruct (Forall2_lookup_l _ _ _ _ _ Hl Hj) as (x & -> & Hx). done.
  - exfalso. assert (Hsome : is_Some (mapM (λ i, a !! i) idx)).
    { apply mapM_is_Some. eapply Forall_impl; [exact Hrange|].
      intros k Hk. by apply lookup_lt_is_Some_2. }
    rewrite Hl in Hsome. by destruct Hsome.
Qed.

Lemma index_by_length {A} (a : list A) (idx : list nat) (l : list A) :
  index_by a idx = Some l -> length l = length idx.
Proof. intros Hl. symmetry. by eapply length_mapM. Qed.

(** ** One run of the Overlap Resolver on a well-formed frame *)
Section resolver_run.

Variable argsort : list float -> list nat.
Variable overlap_threshold : float.
Variables (boxes : list box) (confidences : list float).
Variables (track_ids class_ids : list Z).
Hypothesis Hinput : resolver_input argsort boxes confidences track_ids class_ids.

Local Notation "'sorted_indices'" := (argsort (map PrimFloat.opp confidences)).

Lemma sorted_indices_perm : sorted_indices ≡ₚ seq 0 (length boxes).
Proof.
  destruct Hinput as (Hc & _ & _ & Hsort).
  apply is_argsort_perm in Hsort. by rewrite length_map, Hc in Hsort.
Qed.

Lemma sorted_indices_in_range :
  Forall (λ k : nat, (k < length boxes)%nat) sorted_indices.
Proof.
  apply Forall_forall. intros k Hk. rewrite sorted_indices_perm in Hk.
  apply elem_of_seq in Hk. lia.
Qed.

Lemma sorted_indices_NoDup : NoDup sorted_indices.
Proof. rewrite sorted_indices_perm. apply NoDup_seq. Qed.

(** The detections are visited from the most confident to the least. *)
Lemma sorted_indices_descending pre i post k ci ck :
  sorted_indices = pre ++ i :: post -> k ∈ pre ->
  confidences !! i = Some ci -> confidences !! k = Some ck ->
  PrimFloat.leb ci ck = true.
Proof.
  intros Hsplit Hk Hi Hck. destruct Hinput as (_ & _ & _ & Hsort).
  rewrite Hsplit in Hsort. rewrite <- FloatFacts.leb_opp.
  eapply is_argsort_ordered; [exact Hsort|exact Hk| |].
  - by rewrite list_lookup_fmap, Hi.
  - by rewrite list_lookup_fmap, Hck.
Qed.

(** The function returns, its four results are the four inputs read at
    the kept indices, and the kept indices are characterised by
    [resolve_loop_spec]. *)
Lemma resolver_run :
  ∃ keep_indices kept_boxes kept_confidences kept_track_ids kept_class_ids,
    kept_indices argsort overlap_threshold boxes confidences class_ids
      = Some keep_indices ∧
    filter_overlapping_detections argsort overlap_threshold
      boxes confidences track_ids class_ids
      = Some (kept_boxes, kept_confidences, kept_track_ids, kept_class_ids) ∧
    index_by boxes keep_indices = Some kept_boxes ∧
    index_by confidences keep_indices = Some kept_confidences ∧
    index_by track_ids keep_indices = Some kept_track_ids ∧
    index_by class_ids keep_indices = Some kept_class_ids ∧
    keep_indices `sublist_of` sorted_indices ∧
    ∀ pre i post, sorted_indices = pre ++ i :: post ->
      (i ∉ keep_indices ↔
       ∃ k, k ∈ keep_indices ∧ k ∈ pre ∧
            suppresses overlap_threshold boxes class_ids k i).
Proof.
  pose proof Hinput as (Hc & Ht & Hk & Hsort).
  destruct (resolve_loop_spec overlap_threshold boxes class_ids Hk
              sorted_indices [] sorted_indices_in_range (Forall_nil_2 _)
              sorted_indices_NoDup)
    as (keep & Hloop & (added & Hkeep & Hadded) & Hiff).
  simpl in Hkeep. subst added.
  assert (Hrange : Forall (λ k : nat, (k < length boxes)%nat) keep).
  { pose proof sorted_indices_in_range as Hsorted.
    rewrite Forall_forall in Hsorted.
    apply Forall_forall. intros k Hin. apply Hsorted.
    by eapply elem_of_sublist. }
  destruct (index_by_spec boxes keep Hrange) as (kb & Hkb & _).
  destruct (index_by_spec confidences keep) as (kc & Hkc & _);
    [by rewrite Hc|].
  destruct (index_by_spec track_ids keep) as (kt & Hkt & _);
    [by rewrite Ht|].
  destruct (index_by_spec class_ids keep) as (kk & Hkk & _);
    [by rewrite Hk|].
  exists keep, kb, kc, kt, kk.
  assert (Hkept : kept_indices argsort overlap_threshold boxes confidences
                    class_ids = Some keep) by exact Hloop.
  split_and!; try done.
  - unfold filter_overlapping_detections.
    destruct (length boxes =? 0)%nat eqn:Hempty.
    + apply Nat.eqb_eq in Hempty.
      assert (Hnil : sorted_indices = []).
      { apply Permutation_nil_r. rewrite sorted_indices_perm, Hempty. done. }
      assert (keep = []) as ->.
      { rewrite Hnil in Hadded. by apply sublist_nil_r in Hadded. }
      apply nil_length_inv in Hempty as Hb.
      rewrite Hempty in Hc, Ht, Hk.
      apply nil_length_inv in Hc, Ht, Hk. subst.
      injection Hkb as <-. injection Hkc as <-.
      injection Hkt as <-. injection Hkk as <-. reflexivity.
    + rewrite Hkept. simpl. rewrite Hkb. simpl. rewrite Hkc. simpl.
      rewrite Hkt. simpl. by rewrite Hkk.
  - intros pre i post Hsplit. rewrite (Hiff pre i post Hsplit). split.
    + intros (k & ? & [Hnil|?] & ?); [by apply elem_of_nil in Hnil|].
      by exists k.
    + intros (k & ? & ? & ?). exists k. split_and!; [done|by right|done].
Qed.

End resolver_run.

(** No detection suppresses, or is suppressed by, a degenerate box when the
    threshold is not negative. *)
Lemma degenerate_never_suppresses thr boxes class_ids k i bk bi :
  PrimFloat.ltb thr 0 = false ->
  boxes !! k = Some bk -> boxes !! i = Some bi ->
  degenerate bk \/ degenerate bi ->
  ¬ suppresses thr boxes class_ids k i.
Proof.
  intros Hthr Hk Hi Hdeg (bi' & bk' & c & ov & Hi' & Hk' & _ & _ & Hov & Hlt).
  simplify_eq.
  rewrite overlap_degenerate in Hov by tauto.
  injection Hov as <-. congruence.
Qed.

(** In range, [wrap64] is the identity. *)
Lemma wrap64_small (z : Z) : - 2 ^ 63 <= z < 2 ^ 63 -> wrap64 z = z.
Proof. intros Hz. unfold wrap64. rewrite Z.mod_small; lia. Qed.

(** For two overlapping boxes inside an image of at most 2^31 pixels a
    side, the value returned is the area of the intersection divided by the
    smaller of the two areas, times 100. *)
Lemma overlap_is_ratio (x1 y1 x2 y2 x1' y1' x2' y2' : Z) :
  let inter_w := Z.min x2 x2' - Z.max x1 x1' in
  let inter_h := Z.min y2 y2' - Z.max y1 y1' in
  Forall (λ c, 0 <= c < 2 ^ 31) [x1; y1; x2; y2; x1'; y1'; x2'; y2'] ->
  0 < inter_w -> 0 < inter_h ->
  calculate_overlap_percentage (x1, y1, x2, y2) (x1', y1', x2', y2')
  = Some (PrimFloat.mul
            (PrimFloat.div
               (float_of_int (inter_w * inter_h))
               (float_of_int (Z.min ((x2 - x1) * (y2 - y1))
                                    ((x2' - x1') * (y2' - y1')))))
            100%float).
Proof.
  intros inter_w inter_h Hin Hw Hh. subst inter_w inter_h.
  repeat (apply Forall_cons in Hin as [? Hin]).
  unfold calculate_overlap_percentage.
  destruct (_ || _) eqn:Hguard.
  { apply orb_true_iff in Hguard as [Hg|Hg]; apply Z.leb_le in Hg; lia. }
  assert (Hprod : ∀ a b, 0 <= a < 2 ^ 31 -> 0 <= b < 2 ^ 31 ->
                         wrap64 (wrap64 a * wrap64 b) = a * b).
  { intros a b Ha Hb. rewrite (wrap64_small a), (wrap64_small b) by lia.
    apply wrap64_small. nia. }
  rewrite !Hprod by lia.
  destruct (0 <? _) eqn:Hpos.
  - unfold true_divide. apply Z.ltb_lt in Hpos.
    destruct (_ =? 0) eqn:Hz; [apply Z.eqb_eq in Hz; lia|]. reflexivity.
  - apply Z.ltb_ge in Hpos.
    assert (0 < (x2 - x1) * (y2 - y1)) by (apply Z.mul_pos_pos; lia).
    assert (0 < (x2' - x1') * (y2' - y1')) by (apply Z.mul_pos_pos; lia).
    lia.
Qed.

(** ** The claims about the Overlap Resolver *)

(** C10: [calculate_overlap_percentage] gives the same result whichever of
    the two boxes comes first. *)
Theorem C10_overlap_symmetric (box1 box2 : box) :
  calculate_overlap_percentage box1 box2 = calculate_overlap_percentage box2 box1.
Proof. apply overlap_symmetric. Qed.

(** C6: [calculate_overlap_percentage] always returns (its division never
    has a zero divisor); it returns exactly 0.0 as soon as one of the two
    boxes has zero or negative width or height; and, with a threshold that
    is not negative, a detection with such a box is always kept by
    [filter_overlapping_detections] and makes no other detection be
    dropped. *)
Theorem C6_degenerate_boxes :
  (∀ box1 box2, is_Some (calculate_overlap_percentage box1 box2)) ∧
  (∀ box1 box2, degenerate box1 \/ degenerate box2 ->
     calculate_overlap_percentage box1 box2 = Some 0%float) ∧
  (∀ argsort overlap_threshold boxes confidences track_ids class_ids
     keep_indices i b,
     resolver_input argsort boxes confidences track_ids class_ids ->
     PrimFloat.ltb overlap_threshold 0 = false ->
     kept_indices argsort overlap_threshold boxes confidences class_ids
       = Some keep_indices ->
     boxes !! i = Some b -> degenerate b ->
     i ∈ keep_indices ∧
     ∀ j, ¬ suppresses overlap_threshold boxes class_ids i j ∧
          ¬ suppresses overlap_threshold boxes class_ids j i).
Proof.
  split_and!.
  - apply overlap_never_divides_by_zero.
  - apply overlap_degenerate.
  - intros argsort thr boxes confs tids cids keep i b Hinput Hthr Hkept Hb Hdeg.
    assert (Hnever : ∀ j, ¬ suppresses thr boxes cids i j ∧
                          ¬ suppresses thr boxes cids j i).
    { intros j. split; intros Hs.
      - pose proof Hs as (bj & _ & _ & _ & Hj & _).
        by apply (degenerate_never_suppresses thr boxes cids i j b bj Hthr Hb Hj
                    (or_introl Hdeg)).
      - pose proof Hs as (_ & bj & _ & _ & _ & Hj & _).
        by apply (degenerate_never_suppresses thr boxes cids j i bj b Hthr Hj Hb
                    (or_intror Hdeg)). }
    split; [|exact Hnever].
    destruct (resolver_run argsort thr boxes confs tids cids Hinput)
      as (keep' & ? & ? & ? & ? & Hkept' & _ & _ & _ & _ & _ & _ & Hrule).
    assert (keep' = keep) as -> by congruence.
    assert (Hi : i ∈ argsort (map PrimFloat.opp confs)).
    { rewrite (sorted_indices_perm argsort boxes confs tids cids Hinput).
      apply elem_of_seq. apply lookup_lt_Some in Hb. lia. }
    apply list_elem_of_split in Hi as (pre & post & Hsplit).
    destruct (decide (i ∈ keep)) as [|Hout]; [done|].
    apply (Hrule pre i post Hsplit) in Hout as (k & _ & _ & Hs).
    by destruct (Hnever k) as [_ Hno].
Qed.

(** C6, on a frame whose second box has no width. *)
Lemma C6_degenerate_boxes_witness :
  (1%nat ∈ [0; 1]%nat) ∧
  ∀ j, ¬ suppresses 50%float [(0, 0, 10, 10); (5, 5, 5, 9)] [0; 0] 1 j ∧
       ¬ suppresses 50%float [(0, 0, 10, 10); (5, 5, 5, 9)] [0; 0] j 1.
Proof.
  apply (proj2 (proj2 C6_degenerate_boxes) argsort_first_wins 50%float
           [(0, 0, 10, 10); (5, 5, 5, 9)] [0.9; 0.6]%float [1; 2] [0; 0]
           [0; 1]%nat 1%nat (5, 5, 5, 9)).
  - repeat split; vm_compute; reflexivity.
  - vm_compute; reflexivity.
  - vm_compute; reflexivity.
  - reflexivity.
  - left. lia.
Defined.

(** C1: on a well-formed frame [filter_overlapping_detections] returns the
    four arrays read at the kept indices.  The detection at index [i] is
    discarded if and only if some detection that is kept and was visited
    before it in the confidence-descending order (so one whose confidence
    is at least as high), of the same class, overlaps it by more than the
    threshold ([suppresses]); in particular a detection whose class differs
    from the class of every detection visited before it is kept.  The
    overlap is the intersection area divided by the smaller of the two
    areas, times 100.  The frame of two potholes, (0,0,10,10) at 0.9 with
    id 1 and (1,1,9,9) at 0.6 with id 2, comes out with threshold 50 as the
    first detection alone, the overlap of the second with it being 100. *)
Theorem C1_overlap_suppression :
  (∀ argsort overlap_threshold boxes confidences track_ids class_ids,
     resolver_input argsort boxes confidences track_ids class_ids ->
     ∃ keep_indices kept_boxes kept_confidences kept_track_ids kept_class_ids,
       kept_indices argsort overlap_threshold boxes confidences class_ids
         = Some keep_indices ∧
       filter_overlapping_detections argsort overlap_threshold
         boxes confidences track_ids class_ids
         = Some (kept_boxes, kept_confidences, kept_track_ids, kept_class_ids) ∧
       index_by boxes keep_indices = Some kept_boxes ∧
       index_by confidences keep_indices = Some kept_confidences ∧
       index_by track_ids keep_indices = Some kept_track_ids ∧
       index_by class_ids keep_indices = Some kept_class_ids ∧
       ∀ pre i post,
         argsort (map PrimFloat.opp confidences) = pre ++ i :: post ->
         (i ∉ keep_indices ↔
          ∃ k, k ∈ keep_indices ∧ k ∈ pre ∧
               suppresses overlap_threshold boxes class_ids k i) ∧
         (∀ k ci ck, k ∈ pre ->
            confidences !! i = Some ci -> confidences !! k = Some ck ->
            PrimFloat.leb ci ck = true) ∧
         ((∀ k, k ∈ pre -> class_ids !! k ≠ class_ids !! i) -> i ∈ keep_indices)) ∧
  (∀ x1 y1 x2 y2 x1' y1' x2' y2',
     Forall (λ c, 0 <= c < 2 ^ 31) [x1; y1; x2; y2; x1'; y1'; x2'; y2'] ->
     0 < Z.min x2 x2' - Z.max x1 x1' -> 0 < Z.min y2 y2' - Z.max y1 y1' ->
     calculate_overlap_percentage (x1, y1, x2, y2) (x1', y1', x2', y2')
     = Some (PrimFloat.mul
               (PrimFloat.div
                  (float_of_int ((Z.min x2 x2' - Z.max x1 x1')
                                 * (Z.min y2 y2' - Z.max y1 y1')))
                  (float_of_int (Z.min ((x2 - x1) * (y2 - y1))
                                       ((x2' - x1') * (y2' - y1')))))
               100%float)) ∧
  calculate_overlap_percentage (1, 1, 9, 9) (0, 0, 10, 10) = Some 100%float ∧
  (∀ argsort,
     is_argsort (map PrimFloat.opp [0.9; 0.6]%float)
                (argsort (map PrimFloat.opp [0.9; 0.6]%float)) = true ->
     filter_overlapping_detections argsort 50%float
       [(0, 0, 10, 10); (1, 1, 9, 9)] [0.9; 0.6]%float [1; 2] [0; 0]
     = Some ([(0, 0, 10, 10)], [0.9]%float, [1], [0])).
Proof.
  split_and!.
  - intros argsort thr boxes confs tids cids Hinput.
    destruct (resolver_run argsort thr boxes confs tids cids Hinput)
      as (keep & kb & kc & kt & kk & Hkept & Hout & Hkb & Hkc & Hkt & Hkk & _ & Hrule).
    exists keep, kb, kc, kt, kk. split_and!; try done.
    intros pre i post Hsplit. split_and!.
    + apply (Hrule pre i post Hsplit).
    + intros k ci ck Hk Hci Hck.
      by eapply (sorted_indices_descending argsort boxes confs tids cids Hinput).
    + intros Hclasses. destruct (decide (i ∈ keep)) as [|Hdropped]; [done|].
      apply (Hrule pre i post Hsplit) in Hdropped
        as (k & _ & Hk & (_ & _ & c & _ & _ & _ & Hci & Hck & _)).
      exfalso. apply (Hclasses k Hk). congruence.
  - intros. by apply overlap_is_ratio.
  - vm_compute. reflexivity.
  - intros argsort Hsort.
    unfold filter_overlapping_detections, kept_indices.
    remember (argsort (map PrimFloat.opp [0.9; 0.6]%float)) as sorted_indices
      eqn:Hsorted.
    assert (Horder : sorted_indices = [0; 1]%nat).
    { pose proof (is_argsort_perm _ _ Hsort) as Hperm. simpl in Hperm.
      symmetry in Hperm. apply Permutation_length_2_inv in Hperm as [H|H];
        [exact H|].
      rewrite H in Hsort. vm_compute in Hsort. discriminate. }
    rewrite Horder. vm_compute. reflexivity.
Qed.

(** C1, on the frame of the two potholes sorted by an insertion sort. *)
Lemma C1_overlap_suppression_witness :
  (∃ keep_indices,
     kept_indices argsort_first_wins 50%float
       [(0, 0, 10, 10); (1, 1, 9, 9)] [0.9; 0.6]%float [0; 0]
       = Some keep_indices ∧
     (1%nat ∉ keep_indices ↔
      ∃ k, k ∈ keep_indices ∧ k ∈ [0%nat] ∧
           suppresses 50%float [(0, 0, 10, 10); (1, 1, 9, 9)] [0; 0] k 1)) ∧
  calculate_overlap_percentage (0, 0, 10, 10) (5, 0, 15, 10)
  = Some (PrimFloat.mul (PrimFloat.div (float_of_int 50) (float_of_int 100))
                        100%float) ∧
  filter_overlapping_detections argsort_first_wins 50%float
    [(0, 0, 10, 10); (1, 1, 9, 9)] [0.9; 0.6]%float [1; 2] [0; 0]
  = Some ([(0, 0, 10, 10)], [0.9]%float, [1], [0]).
Proof.
  destruct C1_overlap_suppression as (Hrule & Hratio & _ & Hscenario).
  split_and!.
  - destruct (Hrule argsort_first_wins 50%float
                [(0, 0, 10, 10); (1, 1, 9, 9)] [0.9; 0.6]%float [1; 2] [0; 0])
      as (keep & _ & _ & _ & _ & Hkept & _ & _ & _ & _ & _ & Hdrop).
    + repeat split; vm_compute; reflexivity.
    + exists keep. split; [exact Hkept|].
      apply (Hdrop [0%nat] 1%nat []). vm_compute. reflexivity.
  - apply (Hratio 0 0 10 10 5 0 15 10); [|reflexivity|reflexivity].
    repeat constructor; lia.
  - apply (Hscenario argsort_first_wins). vm_compute. reflexivity.
Defined.

Lemma index_by_lookup {A} (a : list A) (idx : list nat) (l : list A) :
  index_by a idx = Some l ->
  ∀ j i, idx !! j = Some i -> l !! j = a !! i.
Proof.
  intros Hl j i Hj. apply mapM_Some in Hl.
  destruct (Forall2_lookup_l _ _ _ _ _ Hl Hj) as (x & -> & Hx). done.
Qed.

(** Two positions of a sublist are two positions of the list, in the same
    order. *)
Lemma sublist_positions {A} (l k : list A) (j1 j2 : nat) (x1 x2 : A) :
  l `sublist_of` k -> (j1 < j2)%nat ->
  l !! j1 = Some x1 -> l !! j2 = Some x2 ->
  ∃ pre post, k = pre ++ x2 :: post ∧ x1 ∈ pre.
Proof.
  intros Hsub Hlt H1 H2.
  rewrite <- (take_drop_middle l j2 x2 H2) in Hsub.
  apply sublist_app_l in Hsub as (k1 & k2 & -> & Hk1 & Hk2).
  apply sublist_cons_l in Hk2 as (k2a & k2b & -> & _).
  exists (k1 ++ k2a), k2b. split; [by rewrite <- app_assoc|].
  apply elem_of_app. left. eapply elem_of_sublist; [|exact Hk1].
  apply list_elem_of_lookup. exists j1. by rewrite lookup_take_lt.
Qed.

(** C7, as stated, fails.  Four potholes apart from one another, the first
    two of confidence 0.5 and the last two of confidence 0.9.  numpy's
    default sort is not stable: on processors with AVX2 or AVX-512 it sorts
    arrays this short with a bitonic network, and [np.argsort] of the four
    negated confidences returns [3, 2, 1, 0], as [argsort_last_wins] does.
    The Overlap Resolver then returns the four detections in the reverse
    of their input order: both pairs of equal confidence come out
    reversed. *)
Lemma C7_stable_ties_counterexample :
  let boxes := [(0, 0, 10, 10); (20, 0, 30, 10); (40, 0, 50, 10); (60, 0, 70, 10)] in
  let confidences := [0.5; 0.5; 0.9; 0.9]%float in
  argsort_last_wins (map PrimFloat.opp confidences) = [3; 2; 1; 0]%nat ∧
  resolver_input argsort_last_wins boxes confidences [1; 2; 3; 4] [0; 0; 0; 0] ∧
  kept_indices argsort_last_wins 50%float boxes confidences [0; 0; 0; 0]
  = Some [3; 2; 1; 0]%nat ∧
  filter_overlapping_detections argsort_last_wins 50%float
    boxes confidences [1; 2; 3; 4] [0; 0; 0; 0]
  = Some ([(60, 0, 70, 10); (40, 0, 50, 10); (20, 0, 30, 10); (0, 0, 10, 10)],
          [0.9; 0.9; 0.5; 0.5]%float, [4; 3; 2; 1], [0; 0; 0; 0]) ∧
  ¬ ties_in_input_order confidences [3; 2; 1; 0]%nat.
Proof.
  intros boxes confidences. split_and!.
  - vm_compute. reflexivity.
  - repeat split; vm_compute; reflexivity.
  - vm_compute. reflexivity.
  - vm_compute. reflexivity.
  - intros Hstable.
    assert (Hlt : (3 < 2)%nat); [|lia].
    by apply (Hstable 0%nat 1%nat 3%nat 2%nat 0.9%float); [lia|..].
Qed.

(** C7, amended: on a well-formed frame the Overlap Resolver returns a
    selection of the input detections: the kept indices are distinct and in
    range, each returned box, confidence, track id and class id is the
    input value at the kept index, and the confidences returned never
    increase.  The kept indices follow the order in which [np.argsort]
    returned them, which is all that fixes the order of detections of equal
    confidence. *)
Theorem C7_resolver_output :
  ∀ argsort overlap_threshold boxes confidences track_ids class_ids,
    resolver_input argsort boxes confidences track_ids class_ids ->
    ∃ keep_indices kept_boxes kept_confidences kept_track_ids kept_class_ids,
      kept_indices argsort overlap_threshold boxes confidences class_ids
        = Some keep_indices ∧
      filter_overlapping_detections argsort overlap_threshold
        boxes confidences track_ids class_ids
        = Some (kept_boxes, kept_confidences, kept_track_ids, kept_class_ids) ∧
      NoDup keep_indices ∧
      length kept_boxes = length keep_indices ∧
      length kept_confidences = length keep_indices ∧
      length kept_track_ids = length keep_indices ∧
      length kept_class_ids = length keep_indices ∧
      (∀ j i, keep_indices !! j = Some i ->
         (i < length boxes)%nat ∧
         kept_boxes !! j = boxes !! i ∧
         kept_confidences !! j = confidences !! i ∧
         kept_track_ids !! j = track_ids !! i ∧
         kept_class_ids !! j = class_ids !! i) ∧
      (∀ j1 j2 c1 c2, (j1 < j2)%nat ->
         kept_confidences !! j1 = Some c1 -> kept_confidences !! j2 = Some c2 ->
         PrimFloat.leb c2 c1 = true) ∧
      keep_indices `sublist_of` argsort (map PrimFloat.opp confidences).
Proof.
  intros argsort thr boxes confs tids cids Hinput.
  destruct (resolver_run argsort thr boxes confs tids cids Hinput)
    as (keep & kb & kc & kt & kk & Hkept & Hout & Hkb & Hkc & Hkt & Hkk & Hsub & _).
  exists keep, kb, kc, kt, kk.
  pose proof (sorted_indices_in_range argsort boxes confs tids cids Hinput) as Hrange.
  rewrite Forall_forall in Hrange.
  split_and!; try done; try by eapply index_by_length.
  - eapply sublist_NoDup; [|exact Hsub].
    apply (sorted_indices_NoDup argsort boxes confs tids cids Hinput).
  - intros j i Hj. split_and!; try by eapply index_by_lookup.
    apply Hrange. eapply elem_of_sublist; [|exact Hsub].
    apply list_elem_of_lookup. by exists j.
  - intros j1 j2 c1 c2 Hlt Hc1 Hc2.
    assert (Hlen := index_by_length _ _ _ Hkc).
    destruct (lookup_lt_is_Some_2 keep j1) as [i1 Hi1];
      [apply lookup_lt_Some in Hc1; lia|].
    destruct (lookup_lt_is_Some_2 keep j2) as [i2 Hi2];
      [apply lookup_lt_Some in Hc2; lia|].
    rewrite (index_by_lookup _ _ _ Hkc j1 i1 Hi1) in Hc1.
    rewrite (index_by_lookup _ _ _ Hkc j2 i2 Hi2) in Hc2.
    destruct (sublist_positions _ _ _ _ _ _ Hsub Hlt Hi1 Hi2)
      as (pre & post & Hsplit & Hpre).
    by eapply (sorted_indices_descending argsort boxes confs tids cids Hinput).
Qed.

(** C7 amended, on the four potholes, whose ties the sort returns
    reversed. *)
Lemma C7_resolver_output_witness :
  ∃ keep_indices kept_track_ids,
    kept_indices argsort_last_wins 50%float
      [(0, 0, 10, 10); (20, 0, 30, 10); (40, 0, 50, 10); (60, 0, 70, 10)]
      [0.5; 0.5; 0.9; 0.9]%float [0; 0; 0; 0]
      = Some keep_indices ∧
    index_by [1; 2; 3; 4] keep_indices = Some kept_track_ids ∧
    NoDup keep_indices.
Proof.
  destruct (C7_resolver_output argsort_last_wins 50%float
              [(0, 0, 10, 10); (20, 0, 30, 10); (40, 0, 50, 10); (60, 0, 70, 10)]
              [0.5; 0.5; 0.9; 0.9]%float [1; 2; 3; 4] [0; 0; 0; 0])
    as (keep & kb & kc & kt & kk & Hkept & Hout & Hnodup & _).
  - repeat split; vm_compute; reflexivity.
  - exists keep, kt. split_and!; [exact Hkept| |exact Hnodup].
    vm_compute in Hkept. injection Hkept as <-.
    vm_compute in Hout. injection Hout as _ _ <- _. reflexivity.
Defined.

(** ** The enrichment throttle *)
Section throttle.

Variable ANALYSIS_INTERVAL : float.
Variable encode_image_to_base64 : ndarray -> string.

Local Notation "'observe'" :=
  (process_detection ANALYSIS_INTERVAL encode_image_to_base64).

(** The time of the last dispatch for a track, 0 when there was none. *)
Local Notation "'last_time_of' self track_id" :=
  (default 0%float (last_sent_times self !! track_id))
  (at level 10, self at level 9, track_id at level 9).

Lemma process_detection_dispatches self t track_id damage_type crop early :
  PrimFloat.ltb ANALYSIS_INTERVAL (PrimFloat.sub t (last_time_of self track_id))
    = true ->
  0 < size crop ->
  observe self t track_id damage_type crop early
  = ({| last_sent_times := <[track_id := t]> (last_sent_times self);
        track_results := track_results self |},
     Some {| arg_base64_image := encode_image_to_base64 crop;
             arg_track_id := track_id;
             arg_damage_type := damage_type |},
     track_results
       (with_early_thread
          {| last_sent_times := <[track_id := t]> (last_sent_times self);
             track_results := track_results self |}
          (Some {| arg_base64_image := encode_image_to_base64 crop;
                   arg_track_id := track_id;
                   arg_damage_type := damage_type |})
          early) !! track_id).
Proof.
  intros Hdue Hcrop. unfold process_detection. rewrite Hdue.
  apply Z.ltb_lt in Hcrop. rewrite Hcrop. reflexivity.
Qed.

Lemma process_detection_waits self t track_id damage_type crop early :
  PrimFloat.ltb ANALYSIS_INTERVAL (PrimFloat.sub t (last_time_of self track_id))
    = false \/ size crop <= 0 ->
  observe self t track_id damage_type crop early
  = (self, None, track_results self !! track_id).
Proof.
  intros Hwait. unfold process_detection.
  destruct (PrimFloat.ltb _ _) eqn:Hdue; simpl; [|reflexivity].
  destruct Hwait as [?|Hcrop]; [discriminate|].
  apply Z.ltb_ge in Hcrop. rewrite Hcrop. reflexivity.
Qed.

(** The decision of [process_detection], read off its result. *)
Lemma process_detection_decision self t track_id damage_type crop early
    self1 started result :
  observe self t track_id damage_type crop early = (self1, started, result) ->
  (is_Some started ↔
   PrimFloat.ltb ANALYSIS_INTERVAL (PrimFloat.sub t (last_time_of self track_id))
     = true ∧ 0 < size crop) ∧
  (is_Some started ->
   started = Some {| arg_base64_image := encode_image_to_base64 crop;
                     arg_track_id := track_id;
                     arg_damage_type := damage_type |} ∧
   last_sent_times self1 = <[track_id := t]> (last_sent_times self) ∧
   track_results self1 = track_results self) ∧
  (started = None -> self1 = self) ∧
  result = track_results (with_early_thread self1 started early) !! track_id.
Proof.
  intros Hobs.
  destruct (PrimFloat.ltb ANALYSIS_INTERVAL
              (PrimFloat.sub t (last_time_of self track_id))) eqn:Hdue.
  - destruct (decide (0 < size crop)) as [Hcrop|Hcrop].
    + rewrite process_detection_dispatches in Hobs by done.
      injection Hobs as <- <- <-.
      split_and!; try done; try (split; [done|intros _; by eexists]).
    + rewrite process_detection_waits in Hobs by (right; lia).
      injection Hobs as <- <- <-.
      split_and!; try done; try (by intros [? ?]);
        try (split; [by intros [? ?]|intros [_ ?]; lia]).
  - rewrite process_detection_waits in Hobs by (by left).
    injection Hobs as <- <- <-.
    split_and!; try done; try (by intros [? ?]);
      try (split; [by intros [? ?]|by intros [? _]]).
Qed.

End throttle.

(** A thread that runs [analyze_damage_with_gemini] to its end leaves the
    dispatch times alone. *)
Lemma analyze_keeps_last_sent_times self response base64_image track_id
    damage_type self1 printed :
  analyze_damage_with_gemini self response base64_image track_id damage_type
    = Returns (self1, printed) ->
  last_sent_times self1 = last_sent_times self.
Proof.
  unfold analyze_damage_with_gemini.
  destruct (try_block response) as [v|[msg|msg]]; intros H; simplify_eq; done.
Qed.

(** C2: [process_detection] starts an analysis thread if and only if the
    time since the track's last dispatch (since 0 when there was none)
    exceeds the interval and the crop has pixels.  When it does, the
    dispatch time of the track is the current time on return, the thread
    has only been started, and [process_detection] itself leaves the
    results untouched; a running thread never changes the dispatch times.
    The result is what is stored for the track, read after the start of the
    thread: what was stored before the call, unless the thread just started
    has already run to its end.  So once a track was dispatched at time
    [t], an observation at [t2] with [t2 - t] below the interval dispatches
    nothing and changes nothing, whatever threads completed in between, and
    a later one at [t3] with [t3 - t] above the interval and a crop with
    pixels dispatches again. *)
Theorem C2_throttle :
  (∀ interval encode self t track_id damage_type crop early self1 started result,
     process_detection interval encode self t track_id damage_type crop early
       = (self1, started, result) ->
     (is_Some started ↔
      PrimFloat.ltb interval
        (PrimFloat.sub t (default 0%float (last_sent_times self !! track_id)))
        = true ∧ 0 < size crop) ∧
     (is_Some started ->
      started = Some {| arg_base64_image := encode crop;
                        arg_track_id := track_id;
                        arg_damage_type := damage_type |} ∧
      last_sent_times self1 = <[track_id := t]> (last_sent_times self) ∧
      track_results self1 = track_results self) ∧
     (started = None -> self1 = self) ∧
     result = track_results (with_early_thread self1 started early) !! track_id ∧
     (started = None \/ early = None -> result = track_results self !! track_id)) ∧
  (∀ self response base64_image track_id damage_type self1 printed,
     analyze_damage_with_gemini self response base64_image track_id damage_type
       = Returns (self1, printed) ->
     last_sent_times self1 = last_sent_times self) ∧
  (∀ interval encode self t track_id damage_type crop early self1 thread result,
     process_detection interval encode self t track_id damage_type crop early
       = (self1, Some thread, result) ->
     ∀ t2 damage_type2 crop2 early2 self2,
       last_sent_times self2 = last_sent_times self1 ->
       PrimFloat.ltb (PrimFloat.sub t2 t) interval = true ->
       process_detection interval encode self2 t2 track_id damage_type2 crop2
         early2
         = (self2, None, track_results self2 !! track_id) ∧
       ∀ t3 damage_type3 crop3 early3 self3,
         last_sent_times self3 = last_sent_times self2 ->
         PrimFloat.ltb interval (PrimFloat.sub t3 t) = true ->
         0 < size crop3 ->
         ∃ self4 thread3,
           process_detection interval encode self3 t3 track_id damage_type3 crop3
             early3
             = (self4, Some thread3,
                track_results (with_early_thread self4 (Some thread3) early3)
                  !! track_id) ∧
           track_results self4 = track_results self3 ∧
           last_sent_times self4 !! track_id = Some t3).
Proof.
  split_and!.
  - intros interval encode self t track_id damage_type crop early self1 started
      result Hobs.
    destruct (process_detection_decision _ _ _ _ _ _ _ _ _ _ _ Hobs)
      as (Hiff & Hdone & Hnone & Hresult).
    split_and!; try done.
    intros Hquiet. rewrite Hresult.
    destruct started as [thread|].
    + destruct Hquiet as [?| ->]; [done|]. simpl.
      destruct Hdone as (_ & _ & ->); [by eexists|done].
    + by rewrite (Hnone eq_refl).
  - intros. by eapply analyze_keeps_last_sent_times.
  - intros interval encode self t track_id damage_type crop early self1 thread
      result Hfirst t2 damage_type2 crop2 early2 self2 Hsame2 Hsoon.
    destruct (process_detection_decision _ _ _ _ _ _ _ _ _ _ _ Hfirst)
      as (_ & Hdone & _).
    destruct Hdone as (_ & Hlast & _); [by eexists|].
    assert (Hlast2 : last_sent_times self2 !! track_id = Some t).
    { by rewrite Hsame2, Hlast, lookup_insert_eq. }
    split.
    + apply process_detection_waits. left. rewrite Hlast2. simpl.
      by apply FloatFacts.ltb_asym.
    + intros t3 damage_type3 crop3 early3 self3 Hsame3 Hlate Hcrop3.
      assert (Hlast3 : last_sent_times self3 !! track_id = Some t).
      { by rewrite Hsame3. }
      eexists _, _. split_and!.
      * apply process_detection_dispatches; [|done]. by rewrite Hlast3.
      * done.
      * simpl. by rewrite lookup_insert_eq.
Qed.

(** C2, on a track first seen at time 100, then at 103 and at 106, with
    the interval of [config.py]. *)
Lemma C2_throttle_witness :
  let crop := {| shape := [4; 4; 3]; data := [] |} in
  let self1 :=
    {| last_sent_times := <[7 := 100%float]> ∅; track_results := ∅ |} in
  process_detection config.ANALYSIS_INTERVAL (λ _, "") self1 103%float 7
    "pothole" crop None
  = (self1, None, None) ∧
  ∃ self4 thread3,
    process_detection config.ANALYSIS_INTERVAL (λ _, "") self1 106%float 7
      "pothole" crop None
    = (self4, Some thread3, None) ∧
    track_results self4 = ∅ ∧
    last_sent_times self4 !! 7 = Some 106%float.
Proof.
  intros crop self1.
  destruct C2_throttle as (_ & _ & Hscenario).
  destruct (Hscenario config.ANALYSIS_INTERVAL (λ _, "")
              analysis_service.init 100%float 7 "pothole" crop None self1
              {| arg_base64_image := ""; arg_track_id := 7;
                 arg_damage_type := "pothole" |} None eq_refl
              103%float "pothole" crop None self1 eq_refl eq_refl)
    as [Hwait Hagain].
  split; [exact Hwait|].
  destruct (Hagain 106%float "pothole" crop None self1 eq_refl eq_refl eq_refl)
    as (self4 & thread3 & Hdispatch & Hresults & Hlast).
  exists self4, thread3. split_and!; [|exact Hresults|exact Hlast].
  rewrite Hdispatch. simpl. by rewrite Hresults.
Defined.

(** ** The except block *)

Example fallback_is_complete :
  verdict "medium" "Schedule inspection" !! "severity" = Some "medium" ∧
  verdict "medium" "Schedule inspection" !! "recommendation"
    = Some "Schedule inspection" ∧
  dom (verdict "medium" "Schedule inspection")
    = ({["severity"; "recommendation"]} : gset string).
Proof. split_and!; [reflexivity|reflexivity|]. unfold verdict. set_solver. Qed.

(** C4: when the call to Gemini or the handling of its reply raises an
    exception (an instance of [Exception]), [analyze_damage_with_gemini]
    returns normally, having stored for the track the dict with severity
    "medium" and recommendation "Schedule inspection", both keys present,
    and having printed one line with the track and the error.  An exception
    raised by the call itself, and a reply whose content is not a string,
    are such failures. *)
Theorem C4_failure_writes_fallback :
  (∀ self response base64_image track_id damage_type msg,
     try_block response = Raises (Exception_ msg) ->
     analyze_damage_with_gemini self response base64_image track_id damage_type
     = Returns
         ({| last_sent_times := last_sent_times self;
             track_results :=
               <[track_id := verdict "medium" "Schedule inspection"]>
                 (track_results self) |},
          [gemini_error_line track_id msg]) ∧
     (<[track_id := verdict "medium" "Schedule inspection"]>
        (track_results self)) !! track_id
     = Some (verdict "medium" "Schedule inspection")) ∧
  (∀ msg, try_block (Fails (Exception_ msg)) = Raises (Exception_ msg)) ∧
  (∃ msg, try_block (Responds Parts) = Raises (Exception_ msg)) ∧
  (verdict "medium" "Schedule inspection" !! "severity" = Some "medium" ∧
   verdict "medium" "Schedule inspection" !! "recommendation"
     = Some "Schedule inspection" ∧
   dom (verdict "medium" "Schedule inspection")
     = ({["severity"; "recommendation"]} : gset string)).
Proof.
  split_and!.
  - intros self response base64_image track_id damage_type msg Hfail.
    unfold analyze_damage_with_gemini. rewrite Hfail.
    split; [reflexivity|]. apply lookup_insert_eq.
  - reflexivity.
  - eexists. reflexivity.
  - apply fallback_is_complete.
  - apply fallback_is_complete.
  - apply fallback_is_complete.
Qed.

(** C4, on a request that timed out for track 7. *)
Lemma C4_failure_writes_fallback_witness :
  analyze_damage_with_gemini analysis_service.init
    (Fails (Exception_ "timed out")) "" 7 "pothole"
  = Returns
      ({| last_sent_times := ∅;
          track_results := <[7 := verdict "medium" "Schedule inspection"]> ∅ |},
       ["[Track 7] Gemini Error: timed out"]).
Proof.
  exact (proj1 (proj1 C4_failure_writes_fallback analysis_service.init
                  (Fails (Exception_ "timed out")) "" 7 "pothole" "timed out"
                  eq_refl)).
Defined.

(** ** What is shown while no analysis has completed *)

Lemma process_detection_result interval encode self t track_id damage_type crop
    early :
  (process_detection interval encode self t track_id damage_type crop early).2
  = track_results
      (with_early_thread
         (process_detection interval encode self t track_id damage_type crop
            early).1.1
         (process_detection interval encode self t track_id damage_type crop
            early).1.2
         early) !! track_id.
Proof.
  unfold process_detection.
  by destruct (PrimFloat.ltb _ _ && (0 <? size crop)).
Qed.

(** A thread that has run to its end has stored a dict for its track and
    changed nothing else, or an exception has left it and it has changed
    nothing. *)
Lemma thread_run_results self response thread :
  (∃ v, thread_run self response thread
        = {| last_sent_times := last_sent_times self;
             track_results := <[arg_track_id thread := v]> (track_results self) |})
  \/ thread_run self response thread = self.
Proof.
  unfold thread_run, analyze_damage_with_gemini.
  destruct (try_block response) as [v|[msg|msg]]; simpl;
    [left|left|right]; try done; by eexists.
Qed.

(** [process_detection] returns [None] only when nothing was stored for the
    track before the call. *)
Lemma process_detection_None interval encode self t track_id damage_type crop
    early :
  (process_detection interval encode self t track_id damage_type crop early).2
    = None ->
  track_results self !! track_id = None.
Proof.
  destruct (process_detection interval encode self t track_id damage_type crop
              early) as [[self1 started] result] eqn:Hobs.
  simpl. intros ->.
  destruct (process_detection_decision _ _ _ _ _ _ _ _ _ _ _ Hobs)
    as (_ & Hdone & Hnone & Hresult).
  destruct started as [thread|].
  - destruct Hdone as (Hthread & _ & Hsame); [by eexists|].
    injection Hthread as ->.
    destruct early as [response|]; simpl in Hresult; [|by rewrite <- Hsame].
    match type of Hresult with
    | context [thread_run ?a ?r ?th] =>
        destruct (thread_run_results a r th) as [[v Hv]|Hv]; rewrite Hv in Hresult
    end.
    + simpl in Hresult. by rewrite lookup_insert_eq in Hresult.
    + by rewrite <- Hsame.
  - by rewrite (Hnone eq_refl) in Hresult.
Qed.

(** With nothing stored for the track, the call returns [None] unless the
    thread it has started has run to its end before the read. *)
Lemma process_detection_pending interval encode self t track_id damage_type
    crop early :
  track_results self !! track_id = None ->
  (process_detection interval encode self t track_id damage_type crop early).1.2
    = None \/ early = None ->
  (process_detection interval encode self t track_id damage_type crop early).2
    = None.
Proof.
  intros Hpending Hquiet.
  destruct (process_detection interval encode self t track_id damage_type crop
              early) as [[self1 started] result] eqn:Hobs.
  simpl in *.
  destruct (process_detection_decision _ _ _ _ _ _ _ _ _ _ _ Hobs)
    as (_ & Hdone & Hnone & ->).
  destruct started as [thread|].
  - destruct Hquiet as [?| ->]; [done|]. simpl.
    destruct Hdone as (_ & _ & ->); [by eexists|done].
  - by rewrite (Hnone eq_refl).
Qed.

(** What the loop body appends, when it appends: the fields it was given,
    and the severity and recommendation shown for the result of
    [process_detection]. *)
Lemma process_frame_body_appends interval encode width height getTextSize
    upper class_names analysis t early crop_ track_id_ b class_id confidence_
    analysis1 started d :
  process_frame_body interval encode width height getTextSize upper class_names
    analysis t early crop_ track_id_ b class_id confidence_
    = (analysis1, started, Append d) ->
  ∃ name,
    class_names !! class_id = Some name ∧
    class_name d = string_of_list_ascii (lower (list_ascii_of_string name)) ∧
    (class_name d = "pothole" \/ class_name d = "broken_edge") ∧
    process_detection interval encode analysis t track_id_ (class_name d) crop_
      early
    = (analysis1, started,
       (process_detection interval encode analysis t track_id_ (class_name d)
          crop_ early).2) ∧
    (severity d, recommendation d)
    = (shown_analysis
         (process_detection interval encode analysis t track_id_ (class_name d)
            crop_ early).2).1 ∧
    track_id d = track_id_ ∧ box_ d = b ∧ confidence d = confidence_ ∧
    crop d = crop_.
Proof.
  intros Hbody. unfold process_frame_body in Hbody.
  destruct b as [[[x1 y1] x2] y2].
  destruct (class_names !! class_id) as [name|]; [|discriminate].
  exists name. split; [done|].
  destruct (_ || _) eqn:Hclass; [|discriminate].
  destruct (draw_high_quality_text _ _ _ _ _) in Hbody; [|discriminate].
  destruct (process_detection _ _ _ _ _ _ _ _) as [[a st] r] eqn:Hobs.
  destruct (shown_analysis r) as [[sev rec] col] eqn:Hshown.
  destruct (draw_high_quality_text _ _ _ _ _) in Hbody; [|discriminate].
  destruct (draw_high_quality_text _ _ _ _ _) in Hbody; [|discriminate].
  injection Hbody as <- <- <-. simpl.
  rewrite Hobs. simpl. rewrite Hshown. simpl. split_and!; try done.
  apply orb_true_iff in Hclass as [H|H]; apply bool_decide_eq_true in H; auto.
Qed.

(** C9, as stated, fails.  Track 7 was sent for analysis two seconds ago
    and nothing is stored for it yet: [process_detection] starts no thread
    and returns [None], and the severity that [process_frame] shows and
    appends is "low", not "medium". *)
Lemma C9_pending_default_counterexample :
  let analysis :=
    {| last_sent_times := <[7 := 98%float]> ∅; track_results := ∅ |} in
  let crop_ := {| shape := [60; 80; 3]; data := [] |} in
  (process_detection config.ANALYSIS_INTERVAL (λ _, "") analysis 100%float 7
     "pothole" crop_ None).2 = None ∧
  ∃ d,
    process_frame_body config.ANALYSIS_INTERVAL (λ _, "")
      config.TARGET_WIDTH config.TARGET_HEIGHT text_size_8_by_9 upper_a_to_z
      {[0 := "Pothole"]} analysis 100%float None crop_
      7 (100, 200, 180, 260) 0 0.9%float
    = (analysis, None, Append d) ∧
    severity d = "low" ∧ recommendation d = "Analyzing..." ∧
    severity d ≠ "medium".
Proof.
  intros analysis crop_. split; [reflexivity|].
  eexists. split; [vm_compute; reflexivity|].
  split_and!; [reflexivity|reflexivity|]. vm_compute. discriminate.
Qed.

(** C9, amended: [process_detection] returns [None] only when nothing is
    stored for the track, and then does so unless the thread it has just
    started has already run to its end; for the result [None], lines 169 to
    177 of [process_frame] give the severity "low" and the recommendation
    "Analyzing...", on grey (200, 200, 200), and these are what the
    detection appended for the track carries. *)
Theorem C9_pending_default :
  (∀ interval encode self t track_id damage_type crop early,
     (process_detection interval encode self t track_id damage_type crop
        early).2 = None ->
     track_results self !! track_id = None) ∧
  (∀ interval encode self t track_id damage_type crop early,
     track_results self !! track_id = None ->
     (process_detection interval encode self t track_id damage_type crop
        early).1.2 = None \/ early = None ->
     (process_detection interval encode self t track_id damage_type crop
        early).2 = None) ∧
  shown_analysis None = ("low", "Analyzing...", (200, 200, 200)) ∧
  (∀ interval encode width height getTextSize upper class_names analysis t
     early crop_ track_id_ b class_id confidence_ analysis1 started d,
     process_frame_body interval encode width height getTextSize upper
       class_names analysis t early crop_ track_id_ b class_id confidence_
     = (analysis1, started, Append d) ->
     (process_detection interval encode analysis t track_id_ (class_name d)
        crop_ early).2 = None ->
     severity d = "low" ∧ recommendation d = "Analyzing...").
Proof.
  split_and!.
  - intros. by eapply process_detection_None.
  - intros. by apply process_detection_pending.
  - reflexivity.
  - intros interval encode width height getTextSize upper class_names analysis
      t early crop_ track_id_ b class_id confidence_ analysis1 started d
      Hbody Hnone.
    destruct (process_frame_body_appends _ _ _ _ _ _ _ _ _ _ _ _ _ _ _ _ _ _ Hbody)
      as (name & _ & _ & _ & _ & Hshown & _).
    rewrite Hnone in Hshown. simpl in Hshown. by injection Hshown as -> ->.
Qed.

(** C9 amended, on track 7, whose class is named "Pothole", seen two
    seconds after it was sent for analysis, in a box away from the edges
    of the frame. *)
Lemma C9_pending_default_witness :
  let analysis :=
    {| last_sent_times := <[7 := 98%float]> ∅; track_results := ∅ |} in
  let crop_ := {| shape := [60; 80; 3]; data := [] |} in
  ∃ d,
    process_frame_body config.ANALYSIS_INTERVAL (λ _, "")
      config.TARGET_WIDTH config.TARGET_HEIGHT text_size_8_by_9 upper_a_to_z
      {[0 := "Pothole"]} analysis 100%float None crop_
      7 (100, 200, 180, 260) 0 0.9%float
    = (analysis, None, Append d) ∧
    (process_detection config.ANALYSIS_INTERVAL (λ _, "") analysis 100%float 7
       "pothole" crop_ None).2 = None ∧
    severity d = "low" ∧ recommendation d = "Analyzing...".
Proof.
  intros analysis crop_.
  destruct C9_pending_default as (_ & Hnone & _ & Hshown).
  eexists. split; [vm_compute; reflexivity|]. split.
  - apply Hnone; [reflexivity|by right].
  - eapply (Hshown config.ANALYSIS_INTERVAL (λ _, "")
              config.TARGET_WIDTH config.TARGET_HEIGHT text_size_8_by_9
              upper_a_to_z {[0 := "Pothole"]} analysis 100%float None crop_
              7 (100, 200, 180, 260) 0 0.9%float);
      vm_compute; reflexivity.
Defined.

(** ** The record store *)

Lemma find_fmap_stable {A} (p : A -> bool) (f : A -> A) (l : list A) :
  (∀ r, p (f r) = p r) -> List.find p (f <$> l) = f <$> List.find p l.
Proof.
  intros Hp. induction l as [|r l IH]; [reflexivity|].
  simpl. rewrite Hp. by destruct (p r).
Qed.

Lemma find_snoc {A} (p : A -> bool) (l : list A) (x : A) :
  List.find p (l ++ [x])
  = match List.find p l with
    | Some r => Some r
    | None => if p x then Some x else None
    end.
Proof.
  induction l as [|r l IH]; simpl; [done|]. by destruct (p r).
Qed.

Lemma find_None_fmap {A} (key : A -> Z) (l : list A) (t : Z) :
  List.find (λ r, key r =? t) l = None -> t ∉ key <$> l.
Proof.
  induction l as [|r l IH]; simpl; intros Hfind Hin.
  - by apply elem_of_nil in Hin.
  - destruct (key r =? t) eqn:Hr; [discriminate|].
    apply Z.eqb_neq in Hr. apply elem_of_cons in Hin as [->|Hin]; [done|].
    by apply IH.
Qed.

Lemma find_Some_key {A} (key : A -> Z) (l : list A) (t : Z) (r : A) :
  List.find (λ r, key r =? t) l = Some r -> r ∈ l ∧ key r = t.
Proof.
  intros Hfind. apply find_some in Hfind as [Hin Hkey].
  split; [by apply list_elem_of_In|]. by apply Z.eqb_eq.
Qed.

Section record_store.

Variables (self : DatabaseService) (now : Z) (d : detection).
Variable recommendations_ : option (gmap string string).

(** The row [_update_detection] writes over [r]. *)
Local Notation "'overwritten' r" :=
  {| id := id r;
     row_track_id := row_track_id r;
     damage_type := class_name d;
     row_confidence := confidence d;
     location := box_list (box_ d);
     timestamp := now;
     image_path := image_path r;
     recommendations := rec_json recommendations_ |}
  (at level 10, r at level 9).

(** Saving a track that is on record: the UPDATE branch. *)
Lemma save_detection_update existing :
  select_by_track_id self (track_id d) = Some existing ->
  save_detection self now d recommendations_
  = Some (_update_detection self now d recommendations_, id existing) ∧
  select_by_track_id (_update_detection self now d recommendations_) (track_id d)
  = Some (overwritten existing) ∧
  row_track_id <$> detections (_update_detection self now d recommendations_)
  = row_track_id <$> detections self ∧
  id <$> detections (_update_detection self now d recommendations_)
  = id <$> detections self ∧
  image_path <$> detections (_update_detection self now d recommendations_)
  = image_path <$> detections self.
Proof.
  intros Hsel. unfold save_detection. rewrite Hsel.
  split_and!; [reflexivity| | | |].
  - unfold select_by_track_id, _update_detection in *. simpl.
    rewrite find_fmap_stable.
    + rewrite Hsel. simpl.
      apply find_Some_key in Hsel as [_ Hkey]. apply Z.eqb_eq in Hkey.
      by rewrite Hkey.
    + intros r. destruct (row_track_id r =? track_id d) eqn:Hr; simpl;
        by rewrite ?Hr.
  - unfold _update_detection. simpl. rewrite <- list_fmap_compose.
    apply list_fmap_ext. intros _ r _. simpl.
    by destruct (row_track_id r =? track_id d).
  - unfold _update_detection. simpl. rewrite <- list_fmap_compose.
    apply list_fmap_ext. intros _ r _. simpl.
    by destruct (row_track_id r =? track_id d).
  - unfold _update_detection. simpl. rewrite <- list_fmap_compose.
    apply list_fmap_ext. intros _ r _. simpl.
    by destruct (row_track_id r =? track_id d).
Qed.

(** Saving a track that is not on record: the INSERT branch. *)
Lemma save_detection_insert :
  select_by_track_id self (track_id d) = None ->
  save_detection self now d recommendations_
  = Some ({| detections :=
               detections self ++
               [{| id := sqlite_sequence self + 1;
                   row_track_id := track_id d;
                   damage_type := class_name d;
                   row_confidence := confidence d;
                   location := box_list (box_ d);
                   timestamp := now;
                   image_path := None;
                   recommendations := rec_json recommendations_ |}];
             sqlite_sequence := sqlite_sequence self + 1 |},
          sqlite_sequence self + 1).
Proof.
  intros Hsel. unfold save_detection, _insert_detection. by rewrite Hsel.
Qed.

(** [save_detection] always returns. *)
Lemma save_detection_returns :
  ∃ self1 rowid, save_detection self now d recommendations_ = Some (self1, rowid).
Proof.
  destruct (select_by_track_id self (track_id d)) as [existing|] eqn:Hsel.
  - eexists _, _. by apply save_detection_update.
  - eexists _, _. by apply save_detection_insert.
Qed.

(** The row of the saved track after the call. *)
Lemma save_detection_row self1 rowid :
  save_detection self now d recommendations_ = Some (self1, rowid) ->
  ∃ r, select_by_track_id self1 (track_id d) = Some r ∧
       id r = rowid ∧ row_track_id r = track_id d ∧
       damage_type r = class_name d ∧ row_confidence r = confidence d ∧
       location r = box_list (box_ d) ∧ timestamp r = now ∧
       recommendations r = rec_json recommendations_.
Proof.
  intros Hsave.
  destruct (select_by_track_id self (track_id d)) as [existing|] eqn:Hsel.
  - destruct (save_detection_update existing Hsel) as (Hs & Hrow & _).
    rewrite Hs in Hsave. injection Hsave as <- <-.
    eexists. split; [exact Hrow|]. simpl.
    apply find_Some_key in Hsel as [_ Hkey]. by split_and!.
  - rewrite (save_detection_insert Hsel) in Hsave. injection Hsave as <- <-.
    eexists. split.
    + unfold select_by_track_id in *. simpl. rewrite find_snoc, Hsel. simpl.
      by rewrite Z.eqb_refl.
    + by split_and!.
Qed.

(** Rows of other tracks are not touched. *)
Lemma save_detection_other self1 rowid t :
  save_detection self now d recommendations_ = Some (self1, rowid) ->
  t ≠ track_id d ->
  select_by_track_id self1 t = select_by_track_id self t.
Proof.
  intros Hsave Hother.
  destruct (select_by_track_id self (track_id d)) as [existing|] eqn:Hsel.
  - destruct (save_detection_update existing Hsel) as (Hs & _).
    rewrite Hs in Hsave. injection Hsave as <- <-.
    unfold select_by_track_id, _update_detection. simpl.
    rewrite find_fmap_stable.
    + destruct (List.find _ (detections self)) as [r|] eqn:Hr; [|done].
      simpl. apply find_Some_key in Hr as [_ Hkey].
      destruct (row_track_id r =? track_id d) eqn:Hsame; [|done].
      apply Z.eqb_eq in Hsame. congruence.
    + intros r. destruct (row_track_id r =? track_id d) eqn:Hr; simpl;
        by rewrite ?Hr.
  - rewrite (save_detection_insert Hsel) in Hsave. injection Hsave as <- <-.
    unfold select_by_track_id. simpl. rewrite find_snoc.
    destruct (List.find _ (detections self)); [done|].
    simpl. destruct (track_id d =? t) eqn:Hsame; [|done].
    apply Z.eqb_eq in Hsame. congruence.
Qed.

(** The UNIQUE constraint on [track_id] survives the call. *)
Lemma save_detection_unique self1 rowid :
  unique_track_ids self ->
  save_detection self now d recommendations_ = Some (self1, rowid) ->
  unique_track_ids self1.
Proof.
  unfold unique_track_ids. intros Hunique Hsave.
  destruct (select_by_track_id self (track_id d)) as [existing|] eqn:Hsel.
  - destruct (save_detection_update existing Hsel) as (Hs & _ & Htracks & _).
    rewrite Hs in Hsave. injection Hsave as <- <-. by rewrite Htracks.
  - rewrite (save_detection_insert Hsel) in Hsave. injection Hsave as <- <-.
    simpl. rewrite fmap_app. apply NoDup_app. split_and!; [done| |].
    + intros t Ht ->%list_elem_of_singleton.
      by apply (find_None_fmap row_track_id _ _ Hsel).
    + apply NoDup_singleton.
Qed.

End record_store.

Lemma get_detection_by_track_id_None self t :
  get_detection_by_track_id self (py_int t) = None
  ↔ select_by_track_id self t = None.
Proof.
  unfold get_detection_by_track_id.
  destruct (select_by_track_id self t); simpl; split; congruence.
Qed.

(** With distinct keys, at most one element has a given key. *)
Lemma NoDup_fmap_at_most_one {A} (key : A -> Z) (l : list A) (t : Z) :
  NoDup (key <$> l) ->
  (length (filter (λ r, key r = t) l) ≤ 1)%nat.
Proof.
  induction l as [|r l IH]; intros Hnodup; [rewrite filter_nil; simpl; lia|].
  rewrite fmap_cons in Hnodup.
  apply NoDup_cons in Hnodup as [Hr Hl].
  destruct (decide (key r = t)) as [Hkey|Hkey].
  - rewrite filter_cons_True by done.
    assert (filter (λ r, key r = t) l = []) as ->; [|simpl; lia].
    destruct (filter (λ r, key r = t) l) as [|x xs] eqn:Hfilter; [done|].
    exfalso. apply Hr.
    assert (Hx : x ∈ filter (λ r, key r = t) l) by (rewrite Hfilter; left).
    apply list_elem_of_filter in Hx as [Hkx Hx].
    rewrite Hkey, <- Hkx. by apply list_elem_of_fmap_2.
  - rewrite filter_cons_False by done. by apply IH.
Qed.

Lemma save_all_unique calls :
  ∀ self, unique_track_ids self ->
    ∃ self1, save_all self calls = Some self1 ∧ unique_track_ids self1.
Proof.
  induction calls as [|[[now d] recommendations_] rest IH]; intros self Hunique.
  - by exists self.
  - destruct (save_detection_returns self now d recommendations_)
      as (self1 & rowid & Hsave).
    destruct (IH self1) as (self2 & Hrest & Hunique2).
    { by eapply save_detection_unique. }
    exists self2. simpl. rewrite Hsave. simpl. by split.
Qed.

(** What an UPDATE does to each row of the table. *)
Lemma _update_detection_rows self now d recommendations_ i r0 :
  detections self !! i = Some r0 ->
  ∃ r, detections (_update_detection self now d recommendations_) !! i = Some r ∧
       id r = id r0 ∧ row_track_id r = row_track_id r0 ∧
       image_path r = image_path r0 ∧
       (row_track_id r0 ≠ track_id d -> r = r0) ∧
       (row_track_id r0 = track_id d ->
        damage_type r = class_name d ∧ row_confidence r = confidence d ∧
        location r = box_list (box_ d) ∧ timestamp r = now ∧
        recommendations r = rec_json recommendations_).
Proof.
  intros Hi. unfold _update_detection. simpl.
  rewrite list_lookup_fmap, Hi. simpl. eexists. split; [reflexivity|].
  destruct (row_track_id r0 =? track_id d) eqn:Hkey; simpl.
  - apply Z.eqb_eq in Hkey. by split_and!.
  - apply Z.eqb_neq in Hkey. by split_and!.
Qed.



(** X1: on a table that has one row per track id at most, a run of calls
    to [save_detection] never raises and leaves a table that has one row
    per track id at most. *)
Theorem save_detection_runs_keep_one_row_per_track :
  ∀ self calls,
    unique_track_ids self ->
    ∃ self1,
      save_all self calls = Some self1 ∧
      unique_track_ids self1 ∧
      ∀ t, (length (filter (λ r, row_track_id r = t) (detections self1)) ≤ 1)%nat.
Proof.
  intros self calls Hunique.
  destruct (save_all_unique calls self Hunique) as (self1 & Hrun & Hunique1).
  exists self1. split_and!; [done|done|].
  intros t. by apply NoDup_fmap_at_most_one.
Qed.

(** X1, on two saves of track 7 into a fresh database. *)
Lemma save_detection_runs_keep_one_row_per_track_witness :
  ∃ self1,
    save_all database_service.init
      [(1, pothole_7 0.9 (100, 200, 180, 260), None);
       (2, pothole_7 0.6 (104, 200, 184, 260), Some (verdict "high" "Repair"))]
    = Some self1 ∧
    unique_track_ids self1 ∧
    ∀ t, (length (filter (λ r, row_track_id r = t) (detections self1)) ≤ 1)%nat.
Proof.
  apply save_detection_runs_keep_one_row_per_track.
  unfold unique_track_ids. simpl. apply NoDup_nil_2.
Defined.

(** X2: [save_detection] always returns.  A lookup of the saved track id
    as a Python [int] then gives the columns of this call: the track id,
    the class name, the confidence, the four box coordinates, the time of
    the write, and the recommendations (NULL when they are [None] or an
    empty dict).  A lookup with the [numpy.int64] that the detection
    carries finds nothing. *)
Theorem save_then_get_by_track_id :
  ∀ self now d recommendations_,
    ∃ self1 rowid,
      save_detection self now d recommendations_ = Some (self1, rowid) ∧
      get_detection_by_track_id self1 (py_int (track_id d))
      = Some (track_id d, class_name d, confidence d, box_list (box_ d), now,
              rec_json recommendations_) ∧
      get_detection_by_track_id self1 (np_int64 (track_id d)) = None.
Proof.
  intros self now d recommendations_.
  destruct (save_detection_returns self now d recommendations_)
    as (self1 & rowid & Hsave).
  exists self1, rowid. split; [done|]. split; [|done].
  destruct (save_detection_row self now d recommendations_ self1 rowid Hsave)
    as (r & Hrow & _ & Ht & Hd & Hc & Hl & Hn & Hr).
  unfold get_detection_by_track_id. rewrite Hrow. simpl.
  by rewrite Ht, Hd, Hc, Hl, Hn, Hr.
Qed.

(** X3: [save_detection] changes what a lookup returns for the saved track
    only: a lookup with any parameter but the saved track id as an [int]
    returns what it did. *)
Theorem save_detection_leaves_other_tracks :
  ∀ self now d recommendations_ t,
    t ≠ py_int (track_id d) ->
    ∃ self1 rowid,
      save_detection self now d recommendations_ = Some (self1, rowid) ∧
      get_detection_by_track_id self1 t = get_detection_by_track_id self t.
Proof.
  intros self now d recommendations_ t Hother.
  destruct (save_detection_returns self now d recommendations_)
    as (self1 & rowid & Hsave).
  exists self1, rowid. split; [done|].
  destruct t as [t|t]; [|done].
  unfold get_detection_by_track_id.
  rewrite (save_detection_other self now d recommendations_ self1 rowid t);
    [done|done|congruence].
Qed.

(** X3, on a table holding track 3 into which track 7 is saved. *)
Lemma save_detection_leaves_other_tracks_witness :
  let self :=
    {| detections :=
         [{| id := 1; row_track_id := 3; damage_type := "broken_edge";
             row_confidence := 0.7%float; location := [5; 5; 9; 9];
             timestamp := 1; image_path := None; recommendations := None |}];
       sqlite_sequence := 1 |} in
  ∃ self1 rowid,
    save_detection self 2 (pothole_7 0.9 (100, 200, 180, 260)) None = Some (self1, rowid) ∧
    get_detection_by_track_id self1 (py_int 3)
    = get_detection_by_track_id self (py_int 3).
Proof.
  intros self.
  apply (save_detection_leaves_other_tracks self 2 (pothole_7 0.9 (100, 200, 180, 260))
           None (py_int 3)).
  discriminate.
Defined.

(** X4: [save_detection] adds a row exactly when the track is not on
    record, after the rows on record, which it leaves as they are; the new
    row has no image path.  When the track is on record, the call returns
    the id of its row, and the ids, track ids and image paths of all rows
    are as before. *)
Theorem save_detection_is_an_upsert :
  ∀ self now d recommendations_,
    ∃ self1 rowid,
      save_detection self now d recommendations_ = Some (self1, rowid) ∧
      length (detections self1)
      = (length (detections self)
         + match select_by_track_id self (track_id d) with
           | Some _ => 0
           | None => 1
           end)%nat ∧
      (select_by_track_id self (track_id d) = None ->
       ∃ r, detections self1 = detections self ++ [r] ∧
            id r = rowid ∧ row_track_id r = track_id d ∧ image_path r = None) ∧
      (∀ existing,
         select_by_track_id self (track_id d) = Some existing ->
         rowid = id existing ∧
         id <$> detections self1 = id <$> detections self ∧
         row_track_id <$> detections self1 = row_track_id <$> detections self ∧
         image_path <$> detections self1 = image_path <$> detections self).
Proof.
  intros self now d recommendations_.
  destruct (select_by_track_id self (track_id d)) as [existing|] eqn:Hsel.
  - destruct (save_detection_update self now d recommendations_ existing Hsel)
      as (Hsave & _ & Htracks & Hids & Hpaths).
    eexists _, _. split; [exact Hsave|]. split_and!.
    + unfold _update_detection. simpl. rewrite length_fmap. lia.
    + discriminate.
    + intros ? [= <-]. by split_and!.
  - eexists _, _. split; [by apply save_detection_insert|]. split_and!.
    + simpl. rewrite length_app. simpl. lia.
    + intros _. by eexists.
    + discriminate.
Qed.

(** X5: two saves of one track id leave the row of the first with the
    columns of the second: the second call returns the same id, adds no
    row, and a lookup of the track id as a Python [int] gives its
    columns. *)
Theorem save_detection_twice_keeps_the_last :
  ∀ self now d recommendations_ now2 d2 recommendations2,
    track_id d2 = track_id d ->
    ∃ self1 self2 rowid,
      save_detection self now d recommendations_ = Some (self1, rowid) ∧
      save_detection self1 now2 d2 recommendations2 = Some (self2, rowid) ∧
      length (detections self2) = length (detections self1) ∧
      get_detection_by_track_id self2 (py_int (track_id d))
      = Some (track_id d, class_name d2, confidence d2, box_list (box_ d2),
              now2, rec_json recommendations2).
Proof.
  intros self now d recommendations_ now2 d2 recommendations2 Hsame.
  destruct (save_detection_returns self now d recommendations_)
    as (self1 & rowid & Hsave).
  destruct (save_detection_row self now d recommendations_ self1 rowid Hsave)
    as (r & Hrow & Hid & _).
  rewrite <- Hsame in Hrow.
  destruct (save_detection_update self1 now2 d2 recommendations2 r Hrow)
    as (Hsave2 & Hrow2 & _).
  exists self1, (_update_detection self1 now2 d2 recommendations2), rowid.
  split_and!.
  - done.
  - by rewrite Hsave2, Hid.
  - unfold _update_detection. simpl. by rewrite length_fmap.
  - unfold get_detection_by_track_id. rewrite <- Hsame, Hrow2. simpl.
    apply find_Some_key in Hrow as [_ ->]. done.
Qed.

(** X5, on two sightings of track 7. *)
Lemma save_detection_twice_keeps_the_last_witness :
  ∃ self1 self2 rowid,
    save_detection database_service.init 1 (pothole_7 0.9 (100, 200, 180, 260)) None
      = Some (self1, rowid) ∧
    save_detection self1 2 (pothole_7 0.6 (104, 200, 184, 260))
      (Some (verdict "high" "Repair")) = Some (self2, rowid) ∧
    length (detections self2) = length (detections self1) ∧
    get_detection_by_track_id self2 (py_int 7)
    = Some (7, "pothole", 0.6%float, [104; 200; 184; 260], 2,
            Some (verdict "high" "Repair")).
Proof.
  exact (save_detection_twice_keeps_the_last database_service.init 1
           (pothole_7 0.9 (100, 200, 180, 260)) None 2 (pothole_7 0.6 (104, 200, 184, 260))
           (Some (verdict "high" "Repair")) eq_refl).
Defined.

(** ** The loop of [main] over the detections of a frame *)
Section main_loop.

Variable ANALYSIS_INTERVAL : float.
Variable encode_image_to_base64 : ndarray -> string.

Local Notation "'handle'" :=
  (handle_detection ANALYSIS_INTERVAL encode_image_to_base64).
Local Notation "'observe'" :=
  (process_detection ANALYSIS_INTERVAL encode_image_to_base64).

(** The lookup of [main] is made with the [numpy.int64] of the detection
    and finds no row: every detection is sent through [process_detection]
    and saved with what it returned. *)
Lemma handle_detection_saves analysis db current_time now early d :
  ∃ db1 rowid,
    save_detection db now d
      (observe analysis current_time (track_id d) (class_name d) (crop d)
         early).2
    = Some (db1, rowid) ∧
    handle analysis db current_time now early d
    = Some ((observe analysis current_time (track_id d) (class_name d) (crop d)
               early).1.1,
            db1,
            (observe analysis current_time (track_id d) (class_name d) (crop d)
               early).1.2).
Proof.
  destruct (save_detection_returns db now d
              (observe analysis current_time (track_id d) (class_name d)
                 (crop d) early).2) as (db1 & rowid & Hsave).
  exists db1, rowid. split; [done|].
  unfold handle_detection. simpl.
  destruct (observe analysis current_time (track_id d) (class_name d) (crop d)
              early) as [[analysis1 started] result].
  simpl in *. by rewrite Hsave.
Qed.

(** A run of the loop: it returns, keeps the table at one row per track
    id, leaves the rows of the tracks it does not see, and the row of a
    track it sees holds the columns of the last detection of the track. *)
Lemma main_for_detections_run detections_ :
  ∀ analysis db,
    ∃ analysis1 db1 threads,
      main_for_detections ANALYSIS_INTERVAL encode_image_to_base64
        analysis db detections_ = Some (analysis1, db1, threads) ∧
      (unique_track_ids db -> unique_track_ids db1) ∧
      (∀ t, (∀ x, x ∈ detections_ -> track_id x.2 ≠ t) ->
            select_by_track_id db1 t = select_by_track_id db t) ∧
      (∀ pre current_time now early d post,
         detections_ = pre ++ (current_time, now, early, d) :: post ->
         (∀ x, x ∈ post -> track_id x.2 ≠ track_id d) ->
         ∃ r, select_by_track_id db1 (track_id d) = Some r ∧
              row_track_id r = track_id d ∧
              damage_type r = class_name d ∧ row_confidence r = confidence d ∧
              location r = box_list (box_ d) ∧ timestamp r = now).
Proof.
  induction detections_ as [|[[[current_time now] early] d] rest IH];
    intros analysis db.
  - exists analysis, db, []. split_and!; try done.
    intros pre ? ? ? ? post Hsplit. by destruct pre.
  - destruct (handle_detection_saves analysis db current_time now early d)
      as (db' & rowid & Hsave & Hhandle).
    set (analysis' := (observe analysis current_time (track_id d)
                         (class_name d) (crop d) early).1.1) in *.
    set (started := (observe analysis current_time (track_id d)
                       (class_name d) (crop d) early).1.2) in *.
    destruct (IH (with_early_thread analysis' started early) db')
      as (analysis1 & db1 & threads & Hrun & Hunique & Hother & Hlast).
    exists analysis1, db1, (option_list started ++ threads). split_and!.
    + simpl. rewrite Hhandle. simpl. by rewrite Hrun.
    + intros Hu. apply Hunique. by eapply save_detection_unique.
    + intros t Ht. rewrite Hother.
      * eapply save_detection_other; [exact Hsave|].
        intros ->. by apply (Ht (current_time, now, early, d)); [left|].
      * intros x Hx. apply Ht. by right.
    + intros pre t1 now1 early1 d1 post Hsplit Hpost.
      destruct pre as [|y pre]; simpl in Hsplit; simplify_eq.
      * rewrite (Hother _ Hpost).
        destruct (save_detection_row _ _ _ _ _ _ Hsave)
          as (r & Hrow & _ & Ht & Hd & Hc & Hl & Hn & _).
        by exists r.
      * by apply (Hlast pre t1 now1 early1 d1 post).
Qed.

End main_loop.



(** ** The matcher on the two patterns *)
Module regex_facts.

(** A literal matches when the text begins with it. *)
Lemma re_match_lit f w s cap k :
  IGNORECASE f = true ->
  re_match f (lit w) s cap k
  = if starts_with w s then k (drop (length w) s) cap else None.
Proof.
  intros Hf. revert s. induction w as [|x w IH]; intros s; simpl; [done|].
  destruct s as [|c s]; [done|]. rewrite Hf.
  destruct (bool_decide (lower_char c = lower_char x)); simpl; [apply IH|done].
Qed.

Lemma starts_with_length w s :
  starts_with w s = true -> (length w ≤ length s)%nat.
Proof.
  revert s. induction w as [|x w IH]; intros [|c s]; simpl; try lia; try done.
  intros [_ Hw]%andb_true_iff. specialize (IH s Hw). lia.
Qed.

(** The text under a matched literal is the literal, up to case. *)
Lemma starts_with_lower w s :
  starts_with w s = true -> lower (take (length w) s) = lower w.
Proof.
  revert s. induction w as [|x w IH]; intros [|c s]; simpl; try done.
  intros [Hc Hw]%andb_true_iff. apply bool_decide_eq_true in Hc.
  unfold lower in *. simpl. by rewrite Hc, IH.
Qed.

Lemma take_consumed {A} (s : list A) (n : nat) :
  (n ≤ length s)%nat -> take (length s - length (drop n s)) s = take n s.
Proof. intros Hn. rewrite length_drop. f_equal. lia. Qed.

(** Greedy [\s*] before a pattern that cannot begin with whitespace skips
    all the whitespace there is. *)
Lemma star_space_skips f s k :
  (∀ c t, is_space c = true -> k (c :: t) = None) ->
  star_match f Whitespace s k = k (lstrip s).
Proof.
  intros Hk. induction s as [|c s IH]; simpl; [done|].
  destruct (is_space c) eqn:Hc; [|done].
  rewrite IH. destruct (k (lstrip s)); [done|]. by apply Hk.
Qed.

(** Greedy [.*] under DOTALL before the end of the pattern takes all the
    text. *)
Lemma star_dot_takes_all f s k m :
  DOTALL f = true -> k [] = Some m -> star_match f Dot s k = Some m.
Proof.
  intros Hf Hk. induction s as [|c s IH]; simpl; [done|].
  rewrite Hf. simpl. by rewrite IH.
Qed.

(** Whitespace is none of the letters the three severities begin with. *)
Lemma space_is_no_word_start c x :
  is_space c = true ->
  x ∈ list_ascii_of_string "lmh" ->
  bool_decide (lower_char c = lower_char x) = false.
Proof.
  intros Hc Hx. simpl in Hx.
  repeat (apply elem_of_cons in Hx as [->|Hx]);
    [| | |by apply elem_of_nil in Hx];
    destruct c as [[] [] [] [] [] [] [] []]; vm_compute in Hc; try discriminate;
    reflexivity.
Qed.

(** [re.search] returns the match at the first position that has one. *)
Lemma search_at f r s n m :
  (∀ j, (j < n)%nat -> match_here f r (drop j s) = None) ->
  match_here f r (drop n s) = Some m ->
  search f r s = Some m.
Proof.
  revert s. induction n as [|n IH]; intros s Hbefore Hhere.
  - rewrite drop_0 in Hhere. destruct s; simpl; by rewrite Hhere.
  - pose proof (Hbefore 0%nat ltac:(lia)) as H0. rewrite drop_0 in H0.
    destruct s as [|c s].
    + rewrite drop_nil in Hhere. congruence.
    + simpl. rewrite H0. apply IH; [|done].
      intros j Hj. apply (Hbefore (S j)). lia.
Qed.

Lemma search_nowhere f r s :
  (∀ j, match_here f r (drop j s) = None) -> search f r s = None.
Proof.
  induction s as [|c s IH]; intros Hnone.
  - pose proof (Hnone 0%nat) as H0. rewrite drop_0 in H0. simpl. by rewrite H0.
  - simpl. pose proof (Hnone 0%nat) as H0. rewrite drop_0 in H0. rewrite H0.
    apply IH. intros j. apply (Hnone (S j)).
Qed.

Lemma search_found f r s m :
  search f r s = Some m -> ∃ n, match_here f r (drop n s) = Some m.
Proof.
  induction s as [|c s IH]; simpl.
  - destruct (match_here f r []) eqn:Hm; [|done]. intros [= <-]. by exists 0%nat.
  - destruct (match_here f r (c :: s)) eqn:Hm.
    + intros [= <-]. by exists 0%nat.
    + intros Hs. destruct (IH Hs) as [n Hn]. by exists (S n).
Qed.

(** The severity pattern, matched at the start of [s]. *)
Lemma match_here_severity s :
  match_here re_I severity_pattern s = severity_here s.
Proof.
  unfold match_here, severity_pattern, severity_here, severity_here_word.
  cbn [re_match]. rewrite re_match_lit by done.
  destruct (starts_with _ s); [|done].
  change (length (list_ascii_of_string "Severity:")) with 9%nat.
  cbn [re_match]. rewrite star_space_skips.
  - cbn [re_match]. rewrite !re_match_lit by done.
    set (t := lstrip (drop 9 s)).
    destruct (starts_with (list_ascii_of_string "low") t) eqn:Hlow.
    { apply starts_with_length in Hlow. by rewrite take_consumed. }
    destruct (starts_with (list_ascii_of_string "medium") t) eqn:Hmedium.
    { apply starts_with_length in Hmedium. by rewrite take_consumed. }
    destruct (starts_with (list_ascii_of_string "high") t) eqn:Hhigh.
    { apply starts_with_length in Hhigh. by rewrite take_consumed. }
    done.
  - intros c t Hc. cbn [re_match]. rewrite !re_match_lit by done.
    simpl starts_with.
    rewrite !(space_is_no_word_start c) by (done || (simpl; set_solver)).
    done.
Qed.

(** What [(.+)] captures under DOTALL at the end of the pattern: all the
    text, if there is any. *)
Lemma match_group_dot_plus s :
  re_match re_I_S (Group (Plus Dot)) s None (λ _ cap, Some cap)
  = match s with [] => None | _ :: _ => Some (Some s) end.
Proof.
  destruct s as [|c s]; [done|]. cbn [re_match]. simpl atom_matches.
  cbn [orb]. apply star_dot_takes_all; [done|].
  simpl. by rewrite firstn_all.
Qed.

(** After the label of the recommendation, the group is the rest of the
    text up to whitespace at its two ends. *)
Lemma star_space_then_rest s :
  s ≠ [] ->
  ∃ g, star_match re_I_S Whitespace s
         (λ s', re_match re_I_S (Group (Plus Dot)) s' None (λ _ cap, Some cap))
       = Some (Some g) ∧
       strip g = strip s.
Proof.
  set (k := λ s', re_match re_I_S (Group (Plus Dot)) s' None (λ _ cap, Some cap)).
  assert (Hk : ∀ s', k s' = match s' with [] => None | _ :: _ => Some (Some s') end)
    by (intros; apply match_group_dot_plus).
  clearbody k.
  induction s as [|c s IH]; [done|]. intros _.
  cbn [star_match]. simpl atom_matches.
  destruct (is_space c) eqn:Hc.
  - destruct s as [|c' s].
    + exists [c]. split; [|done]. cbn [star_match]. by rewrite !Hk.
    + destruct IH as (g & Hg & Hstrip); [done|].
      exists g. rewrite Hg. split; [done|].
      rewrite Hstrip. unfold strip. cbn [lstrip]. by rewrite Hc.
  - exists (c :: s). by rewrite Hk.
Qed.

Lemma match_here_recommendation s :
  match_here re_I_S recommendation_pattern s
  = if starts_with (list_ascii_of_string "Recommendation:") s
    then star_match re_I_S Whitespace (drop 15 s)
           (λ s', re_match re_I_S (Group (Plus Dot)) s' None (λ _ cap, Some cap))
    else None.
Proof.
  unfold match_here, recommendation_pattern.
  cbn [re_match]. rewrite re_match_lit by done.
  destruct (starts_with _ s); [|done]. done.
Qed.

Lemma starts_with_first x w1 y w2 t :
  starts_with (x :: w1) t = true -> starts_with (y :: w2) t = true ->
  lower_char x = lower_char y.
Proof.
  destruct t as [|c t]; simpl; [done|].
  intros [Hx _]%andb_true_iff [Hy _]%andb_true_iff.
  apply bool_decide_eq_true in Hx, Hy. congruence.
Qed.

(** The three words begin with different letters, so at most one of them
    is at the start of a text. *)
Lemma severity_word_unique w t :
  w ∈ ["low"; "medium"; "high"] ->
  starts_with (list_ascii_of_string w) t = true ->
  severity_here_word t = Some (Some (take (String.length w) t)).
Proof.
  intros Hw Ht. unfold severity_here_word.
  repeat (apply elem_of_cons in Hw as [->|Hw]); [| | |by apply elem_of_nil in Hw];
    cbn [list_ascii_of_string] in *.
  - by rewrite Ht.
  - destruct (starts_with _ t) eqn:Hlow at 1.
    + pose proof (starts_with_first _ _ _ _ _ Hlow Ht) as H.
      vm_compute in H. discriminate.
    + by rewrite Ht.
  - destruct (starts_with _ t) eqn:Hlow at 1.
    + pose proof (starts_with_first _ _ _ _ _ Hlow Ht) as H.
      vm_compute in H. discriminate.
    + destruct (starts_with _ t) eqn:Hmedium at 1.
      * pose proof (starts_with_first _ _ _ _ _ Hmedium Ht) as H.
        vm_compute in H. discriminate.
      * by rewrite Ht.
Qed.

Lemma severity_here_word_lower t m :
  severity_here_word t = Some m ->
  ∃ g, m = Some g ∧
       string_of_list_ascii (lower g) ∈ ["low"; "medium"; "high"].
Proof.
  unfold severity_here_word.
  destruct (starts_with (list_ascii_of_string "low") t) eqn:Hlow.
  { intros [= <-]. eexists. split; [done|].
    apply starts_with_lower in Hlow.
    change (length (list_ascii_of_string "low")) with 3%nat in Hlow.
    rewrite Hlow. by left. }
  destruct (starts_with (list_ascii_of_string "medium") t) eqn:Hmedium.
  { intros [= <-]. eexists. split; [done|].
    apply starts_with_lower in Hmedium.
    change (length (list_ascii_of_string "medium")) with 6%nat in Hmedium.
    rewrite Hmedium. right. by left. }
  destruct (starts_with (list_ascii_of_string "high") t) eqn:Hhigh; [|done].
  intros [= <-]. eexists. split; [done|].
  apply starts_with_lower in Hhigh.
  change (length (list_ascii_of_string "high")) with 4%nat in Hhigh.
  rewrite Hhigh. right. right. by left.
Qed.

End regex_facts.

(** ** Parsing a reply *)

Lemma parse_result_fields result :
  parse_result result
  = match severity_field result with
    | Raises e => Raises e
    | Returns severity_ =>
        match recommendation_field result with
        | Raises e => Raises e
        | Returns recommendation_ => Returns (verdict severity_ recommendation_)
        end
    end.
Proof. reflexivity. Qed.

(** The severity is always one of the three words. *)
Lemma severity_field_returns result :
  ∃ sev, severity_field result = Returns sev ∧ sev ∈ ["low"; "medium"; "high"].
Proof.
  unfold severity_field.
  destruct (search re_I severity_pattern result) as [m|] eqn:Hsearch.
  - apply regex_facts.search_found in Hsearch as [n Hn].
    rewrite regex_facts.match_here_severity in Hn. unfold severity_here in Hn.
    destruct (starts_with _ (drop n result)); [|done].
    apply regex_facts.severity_here_word_lower in Hn as (g & -> & Hg).
    eexists. split; [reflexivity|done].
  - exists "medium". split; [done|]. right. by left.
Qed.

Lemma recommendation_field_returns result :
  ∃ rec, recommendation_field result = Returns rec.
Proof.
  unfold recommendation_field.
  destruct (search re_I_S recommendation_pattern result) as [m|] eqn:Hsearch;
    [|by eexists].
  apply regex_facts.search_found in Hsearch as [n Hn].
  rewrite regex_facts.match_here_recommendation in Hn.
  destruct (starts_with _ (drop n result)); [|done].
  destruct (drop 15 (drop n result)) as [|c rest] eqn:Hrest.
  - simpl in Hn. discriminate.
  - destruct (regex_facts.star_space_then_rest (c :: rest)) as (g & Hg & _);
      [done|].
    rewrite Hg in Hn. injection Hn as <-. by eexists.
Qed.

(** The recommendation, when the first label is at position [n]. *)
Lemma recommendation_field_first result n :
  first_at (list_ascii_of_string "Recommendation:") result n ->
  recommendation_field result
  = if bool_decide (drop (n + 15) result = [])
    then Returns "Schedule inspection"
    else Returns (string_of_list_ascii (strip (drop (n + 15) result))).
Proof.
  intros [Hhere Hbefore]. unfold recommendation_field.
  pose proof (regex_facts.starts_with_length _ _ Hhere) as Hlen.
  rewrite length_drop in Hlen.
  change (length (list_ascii_of_string "Recommendation:")) with 15%nat in Hlen.
  case_bool_decide as Hrest.
  - rewrite regex_facts.search_nowhere; [done|].
    intros j. rewrite regex_facts.match_here_recommendation.
    destruct (starts_with _ (drop j result)) eqn:Hj; [|done].
    destruct (decide (j < n)%nat) as [Hlt|Hge];
      [by rewrite (Hbefore j Hlt) in Hj|].
    apply regex_facts.starts_with_length in Hj. rewrite length_drop in Hj.
    change (length (list_ascii_of_string "Recommendation:")) with 15%nat in Hj.
    pose proof (drop_nil_inv _ _ Hrest) as Hshort.
    assert (j = n) as -> by lia.
    by rewrite drop_drop, Hrest.
  - destruct (regex_facts.star_space_then_rest (drop (n + 15) result) Hrest)
      as (g & Hg & Hstrip).
    rewrite (regex_facts.search_at _ _ _ n (Some g)).
    + simpl. by rewrite Hstrip.
    + intros j Hj. rewrite regex_facts.match_here_recommendation.
      by rewrite (Hbefore j Hj).
    + rewrite regex_facts.match_here_recommendation, Hhere.
      by rewrite drop_drop.
Qed.

Lemma recommendation_field_nowhere result :
  nowhere (list_ascii_of_string "Recommendation:") result ->
  recommendation_field result = Returns "Schedule inspection".
Proof.
  intros Hnone. unfold recommendation_field.
  rewrite regex_facts.search_nowhere; [done|].
  intros j. rewrite regex_facts.match_here_recommendation. by rewrite Hnone.
Qed.

(** The severity, when the first label is at position [n] and one of the
    three words follows it. *)
Lemma severity_field_first result n w :
  first_at (list_ascii_of_string "Severity:") result n ->
  w ∈ ["low"; "medium"; "high"] ->
  starts_with (list_ascii_of_string w) (lstrip (drop (n + 9) result)) = true ->
  severity_field result = Returns w.
Proof.
  intros [Hhere Hbefore] Hw Hword. unfold severity_field.
  pose proof (regex_facts.severity_word_unique w _ Hw Hword) as Hcap.
  rewrite (regex_facts.search_at _ _ _ n
             (Some (take (String.length w) (lstrip (drop (n + 9) result))))).
  - simpl. f_equal.
    apply regex_facts.starts_with_lower in Hword.
    repeat (apply elem_of_cons in Hw as [->|Hw]);
      [| | |by apply elem_of_nil in Hw];
      cbn [String.length]; cbn [list_ascii_of_string length] in Hword;
      by rewrite Hword.
  - intros j Hj. rewrite regex_facts.match_here_severity. unfold severity_here.
    by rewrite (Hbefore j Hj).
  - rewrite regex_facts.match_here_severity. unfold severity_here.
    by rewrite Hhere, drop_drop.
Qed.

Lemma severity_field_nowhere result :
  nowhere (list_ascii_of_string "Severity:") result ->
  severity_field result = Returns "medium".
Proof.
  intros Hnone. unfold severity_field.
  rewrite regex_facts.search_nowhere; [done|].
  intros j. rewrite regex_facts.match_here_severity. unfold severity_here.
  by rewrite Hnone.
Qed.

Lemma try_block_text reply :
  ∃ sev rec,
    try_block (Responds (Text reply)) = Returns (verdict sev rec) ∧
    severity_field (strip (list_ascii_of_string reply)) = Returns sev ∧
    recommendation_field (strip (list_ascii_of_string reply)) = Returns rec ∧
    sev ∈ ["low"; "medium"; "high"].
Proof.
  destruct (severity_field_returns (strip (list_ascii_of_string reply)))
    as (sev & Hsev & Hin).
  destruct (recommendation_field_returns (strip (list_ascii_of_string reply)))
    as (rec & Hrec).
  exists sev, rec. split_and!; try done.
  simpl. by rewrite parse_result_fields, Hsev, Hrec.
Qed.

(** The severity is "medium" when no "Severity:" label is followed by one
    of the three words. *)
Lemma severity_field_no_word result :
  (∀ j w, starts_with (list_ascii_of_string "Severity:") (drop j result) = true ->
          w ∈ ["low"; "medium"; "high"] ->
          starts_with (list_ascii_of_string w) (lstrip (drop (j + 9) result))
          = false) ->
  severity_field result = Returns "medium".
Proof.
  intros Hnone. unfold severity_field.
  rewrite regex_facts.search_nowhere; [done|].
  intros j. rewrite regex_facts.match_here_severity. unfold severity_here.
  destruct (starts_with _ (drop j result)) eqn:Hj; [|done].
  rewrite drop_drop. unfold severity_here_word.
  rewrite !(Hnone j _ Hj); [done| | |]; set_solver.
Qed.




(** X6: a reply whose content is a string of characters below U+0100
    never makes the [try] block raise: whatever such a text, the block
    produces a dict with a severity that is "low", "medium" or "high", and
    a recommendation.  (A character at or above U+0100 can make [re] match
    a word that [str.lower] does not turn into one of the three.) *)
Theorem text_reply_always_parses :
  ∀ reply,
    ∃ sev rec,
      try_block (Responds (Text reply)) = Returns (verdict sev rec) ∧
      sev ∈ ["low"; "medium"; "high"].
Proof.
  intros reply. destruct (try_block_text reply) as (sev & rec & Htry & _ & _ & Hin).
  by exists sev, rec.
Qed.

(** X7: unless the call to Gemini raises an exception that is not an
    [Exception], [analyze_damage_with_gemini] returns, and on return the
    slot of its track holds a dict with a severity and a recommendation;
    the slots of the other tracks and all the dispatch times are as before.
    For the replies of the model (text of characters below U+0100, a list
    of parts, an exception) the severity is "low", "medium" or "high".  An
    exception that is not an [Exception] leaves the function. *)
Theorem analysis_fills_the_slot_of_its_track :
  (∀ self response base64_image track_id damage_type,
     (∀ msg, response ≠ Fails (BaseException_ msg)) ->
     ∃ self1 printed sev rec,
       analyze_damage_with_gemini self response base64_image track_id damage_type
         = Returns (self1, printed) ∧
       track_results self1 !! track_id = Some (verdict sev rec) ∧
       sev ∈ ["low"; "medium"; "high"] ∧
       (∀ t, t ≠ track_id -> track_results self1 !! t = track_results self !! t) ∧
       last_sent_times self1 = last_sent_times self) ∧
  (∀ self msg base64_image track_id damage_type,
     analyze_damage_with_gemini self (Fails (BaseException_ msg)) base64_image
       track_id damage_type
     = Raises (BaseException_ msg)).
Proof.
  split; [|reflexivity].
  intros self response base64_image track_id damage_type Hcaught.
  assert (Hcases :
            (∃ sev rec, try_block response = Returns (verdict sev rec) ∧
                        sev ∈ ["low"; "medium"; "high"]) ∨
            (∃ msg, try_block response = Raises (Exception_ msg))).
  { destruct response as [[reply|]|[msg|msg]].
    - left. destruct (try_block_text reply) as (sev & rec & Htry & _ & _ & Hin).
      by exists sev, rec.
    - right. by eexists.
    - right. by eexists.
    - by destruct (Hcaught msg). }
  unfold analyze_damage_with_gemini.
  destruct Hcases as [(sev & rec & -> & Hin)|(msg & ->)].
  - eexists _, _, sev, rec. split; [reflexivity|]. simpl. split_and!.
    + apply lookup_insert_eq.
    + done.
    + intros t Ht. by apply lookup_insert_ne.
    + done.
  - eexists _, _, "medium", "Schedule inspection". split; [reflexivity|].
    simpl. split_and!.
    + apply lookup_insert_eq.
    + right. by left.
    + intros t Ht. by apply lookup_insert_ne.
    + done.
Qed.

(** X7, on a reply that is a list of parts, for track 7 while track 3 has a
    result. *)
Lemma analysis_fills_the_slot_of_its_track_witness :
  let self :=
    {| last_sent_times := <[7 := 100%float]> ∅;
       track_results := <[3 := verdict "low" "Monitor"]> ∅ |} in
  ∃ self1 printed sev rec,
    analyze_damage_with_gemini self (Responds Parts) "" 7 "pothole"
      = Returns (self1, printed) ∧
    track_results self1 !! 7 = Some (verdict sev rec) ∧
    sev ∈ ["low"; "medium"; "high"] ∧
    (∀ t, t ≠ 7 -> track_results self1 !! t = track_results self !! t) ∧
    last_sent_times self1 = last_sent_times self.
Proof.
  intros self.
  apply (proj1 analysis_fills_the_slot_of_its_track self (Responds Parts) "" 7
           "pothole").
  intros msg. discriminate.
Defined.

(** X8: for a reply of characters below U+0100, the recommendation is
    everything that follows the first "Recommendation:" label of the
    stripped reply (letters compared without regard to case), later lines
    included, with the whitespace at its two ends removed; it is "Schedule
    inspection" when nothing follows the label, and when the reply has no
    such label. *)
Theorem recommendation_is_the_rest_of_the_reply :
  (∀ reply n,
     first_at (list_ascii_of_string "Recommendation:")
       (strip (list_ascii_of_string reply)) n ->
     ∃ sev,
       try_block (Responds (Text reply))
       = Returns
           (verdict sev
              (if bool_decide
                    (drop (n + 15) (strip (list_ascii_of_string reply)) = [])
               then "Schedule inspection"
               else string_of_list_ascii
                      (strip (drop (n + 15)
                                (strip (list_ascii_of_string reply))))))) ∧
  (∀ reply,
     nowhere (list_ascii_of_string "Recommendation:")
       (strip (list_ascii_of_string reply)) ->
     ∃ sev,
       try_block (Responds (Text reply))
       = Returns (verdict sev "Schedule inspection")).
Proof.
  split.
  - intros reply n Hfirst.
    destruct (try_block_text reply) as (sev & rec & Htry & _ & Hrec & _).
    rewrite (recommendation_field_first _ n Hfirst) in Hrec.
    exists sev. rewrite Htry. f_equal. f_equal.
    by case_bool_decide; injection Hrec as <-.
  - intros reply Hnone.
    destruct (try_block_text reply) as (sev & rec & Htry & _ & Hrec & _).
    rewrite (recommendation_field_nowhere _ Hnone) in Hrec.
    injection Hrec as <-. by exists sev.
Qed.

(** X8, on a reply whose recommendation is followed by one more line. *)
Lemma recommendation_is_the_rest_of_the_reply_witness :
  ∃ sev,
    try_block (Responds (Text reply_of_three_lines))
    = Returns
        (verdict sev
           (String.concat (String newline "")
              ["Repair immediately."; "Thank you."])).
Proof.
  destruct (proj1 recommendation_is_the_rest_of_the_reply
              reply_of_three_lines 15%nat) as [sev Hsev].
  - split; [vm_compute; reflexivity|].
    intros j Hj.
    do 15 (destruct j as [|j]; [vm_compute; reflexivity|]). lia.
  - exists sev. rewrite Hsev. vm_compute. reflexivity.
Defined.

(** X9: for a reply of characters below U+0100, when the first
    "Severity:" label of the stripped reply (letters compared without
    regard to case) is followed, after any whitespace, line breaks
    included, by text that begins with "low", "medium" or "high" in any
    case, the severity is that word in lower case; when the reply has no
    such label it is "medium". *)
Theorem severity_is_the_word_after_the_first_label :
  (∀ reply n w,
     first_at (list_ascii_of_string "Severity:")
       (strip (list_ascii_of_string reply)) n ->
     w ∈ ["low"; "medium"; "high"] ->
     starts_with (list_ascii_of_string w)
       (lstrip (drop (n + 9) (strip (list_ascii_of_string reply)))) = true ->
     ∃ rec, try_block (Responds (Text reply)) = Returns (verdict w rec)) ∧
  (∀ reply,
     nowhere (list_ascii_of_string "Severity:")
       (strip (list_ascii_of_string reply)) ->
     ∃ rec, try_block (Responds (Text reply)) = Returns (verdict "medium" rec)).
Proof.
  split.
  - intros reply n w Hfirst Hw Hword.
    destruct (try_block_text reply) as (sev & rec & Htry & Hsev & _ & _).
    rewrite (severity_field_first _ n w Hfirst Hw Hword) in Hsev.
    injection Hsev as <-. by exists rec.
  - intros reply Hnone.
    destruct (try_block_text reply) as (sev & rec & Htry & Hsev & _ & _).
    rewrite (severity_field_nowhere _ Hnone) in Hsev.
    injection Hsev as <-. by exists rec.
Qed.

(** X9, on a reply that opens with "Severity: HIGH". *)
Lemma severity_is_the_word_after_the_first_label_witness :
  ∃ rec,
    try_block (Responds (Text reply_of_three_lines)) = Returns (verdict "high" rec).
Proof.
  apply (proj1 severity_is_the_word_after_the_first_label
           reply_of_three_lines 0%nat "high").
  - split; [vm_compute; reflexivity|]. intros j Hj. lia.
  - right. right. by left.
  - vm_compute. reflexivity.
Defined.

(** X10: [process_detection] itself never changes the stored results,
    never changes the dispatch time of another track, and starts no thread
    and changes nothing when the crop has no pixels, however long ago the
    track was dispatched. *)
Theorem process_detection_touches_only_its_dispatch_time :
  (∀ interval encode self t track_id damage_type crop early,
     track_results
       (process_detection interval encode self t track_id damage_type crop
          early).1.1
     = track_results self ∧
     ∀ other, other ≠ track_id ->
       last_sent_times
         (process_detection interval encode self t track_id damage_type crop
            early).1.1
         !! other
       = last_sent_times self !! other) ∧
  (∀ interval encode self t track_id damage_type crop early,
     size crop <= 0 ->
     process_detection interval encode self t track_id damage_type crop early
     = (self, None, track_results self !! track_id)).
Proof.
  split.
  - intros interval encode self t track_id damage_type crop early.
    unfold process_detection.
    destruct (PrimFloat.ltb _ _ && (0 <? size crop)); simpl; [|done].
    split; [done|]. intros other Hother. by apply lookup_insert_ne.
  - intros. apply process_detection_waits. by right.
Qed.

(** X10, on a crop of no rows, for a track last dispatched long ago. *)
Lemma process_detection_touches_only_its_dispatch_time_witness :
  process_detection config.ANALYSIS_INTERVAL (λ _, "") analysis_service.init
    100%float 7 "pothole" {| shape := [0; 4; 3]; data := [] |} None
  = (analysis_service.init, None, None).
Proof.
  apply (proj2 process_detection_touches_only_its_dispatch_time
           config.ANALYSIS_INTERVAL (λ _, "") analysis_service.init 100%float 7
           "pothole" {| shape := [0; 4; 3]; data := [] |} None).
  vm_compute. discriminate.
Defined.



(** ** More on the Overlap Resolver *)

(** Suppression goes both ways: the overlap and the class test are
    symmetric. *)
Lemma suppresses_symmetric thr boxes class_ids k i :
  suppresses thr boxes class_ids k i -> suppresses thr boxes class_ids i k.
Proof.
  intros (bi & bk & c & ov & Hi & Hk & Hci & Hck & Hov & Hlt).
  exists bk, bi, c, ov. split_and!; try done.
  by rewrite overlap_symmetric.
Qed.

(** Of two different elements of a list, one comes before the other. *)
Lemma one_comes_first {A} (l : list A) (x y : A) :
  x ∈ l -> y ∈ l -> x ≠ y ->
  (∃ pre post, l = pre ++ x :: post ∧ y ∈ pre) ∨
  (∃ pre post, l = pre ++ y :: post ∧ x ∈ pre).
Proof.
  intros Hx Hy Hne.
  apply list_elem_of_split in Hx as (l1 & l2 & ->).
  apply elem_of_app in Hy as [Hy|Hy]; [left; by exists l1, l2|].
  apply elem_of_cons in Hy as [->|Hy]; [done|].
  apply list_elem_of_split in Hy as (a & b & ->).
  right. exists (l1 ++ x :: a), b. split; [by rewrite <- app_assoc|].
  apply elem_of_app. right. by left.
Qed.

(** X11: on a well-formed frame, no two detections that the Overlap
    Resolver keeps suppress one another: two kept detections of the same
    class never overlap by more than the threshold. *)
Theorem kept_detections_do_not_suppress_each_other :
  ∀ argsort overlap_threshold boxes confidences track_ids class_ids
    keep_indices i k,
    resolver_input argsort boxes confidences track_ids class_ids ->
    kept_indices argsort overlap_threshold boxes confidences class_ids
      = Some keep_indices ->
    i ∈ keep_indices -> k ∈ keep_indices -> i ≠ k ->
    ¬ suppresses overlap_threshold boxes class_ids k i.
Proof.
  intros argsort thr boxes confs tids cids keep i k Hinput Hkept Hi Hk Hne Hs.
  destruct (resolver_run argsort thr boxes confs tids cids Hinput)
    as (keep' & ? & ? & ? & ? & Hkept' & _ & _ & _ & _ & _ & Hsub & Hrule).
  assert (keep' = keep) as -> by congruence.
  destruct (one_comes_first (argsort (map PrimFloat.opp confs)) i k)
    as [(pre & post & Hsplit & Hpre)|(pre & post & Hsplit & Hpre)];
    try done; try by eapply elem_of_sublist.
  - assert (i ∉ keep); [|done].
    apply (Hrule pre i post Hsplit). by exists k.
  - assert (k ∉ keep); [|done].
    apply (Hrule pre k post Hsplit). exists i. split_and!; try done.
    by apply suppresses_symmetric.
Qed.

(** X11, on three potholes of which the middle one is dropped. *)
Lemma kept_detections_do_not_suppress_each_other_witness :
  ¬ suppresses 50%float [(0, 0, 10, 10); (1, 1, 9, 9); (20, 20, 30, 30)]
      [0; 0; 0] 2 0.
Proof.
  apply (kept_detections_do_not_suppress_each_other argsort_first_wins 50%float
           [(0, 0, 10, 10); (1, 1, 9, 9); (20, 20, 30, 30)]
           [0.9; 0.6; 0.5]%float [1; 2; 3] [0; 0; 0] [0; 2]%nat 0%nat 2%nat).
  - repeat split; vm_compute; reflexivity.
  - vm_compute. reflexivity.
  - set_solver.
  - set_solver.
  - lia.
Defined.

(** X12: on a well-formed frame that is not empty, the Overlap Resolver
    keeps at least one detection: the first it returns is the first index
    of the sort, whose confidence is at least that of every other
    detection of the frame. *)
Theorem most_confident_detection_is_kept :
  ∀ argsort overlap_threshold boxes confidences track_ids class_ids
    keep_indices,
    resolver_input argsort boxes confidences track_ids class_ids ->
    boxes ≠ [] ->
    kept_indices argsort overlap_threshold boxes confidences class_ids
      = Some keep_indices ->
    ∃ first rest,
      keep_indices = first :: rest ∧
      argsort (map PrimFloat.opp confidences) !! 0%nat = Some first ∧
      ∀ k ck c, k ≠ first ->
        confidences !! k = Some ck -> confidences !! first = Some c ->
        PrimFloat.leb ck c = true.
Proof.
  intros argsort thr boxes confs tids cids keep Hinput Hboxes Hkept.
  destruct (resolver_run argsort thr boxes confs tids cids Hinput)
    as (keep' & ? & ? & ? & ? & Hkept' & _ & _ & _ & _ & _ & Hsub & Hrule).
  assert (keep' = keep) as -> by congruence.
  pose proof (sorted_indices_perm argsort boxes confs tids cids Hinput) as Hperm.
  pose proof (sorted_indices_NoDup argsort boxes confs tids cids Hinput) as Hnodup.
  destruct (argsort (map PrimFloat.opp confs)) as [|first sorted_rest] eqn:Hsorted.
  { apply Permutation_length in Hperm. rewrite length_seq in Hperm.
    destruct boxes; [done|discriminate]. }
  assert (Hfirst : first ∈ keep).
  { destruct (decide (first ∈ keep)) as [|Hout]; [done|].
    apply (Hrule [] first sorted_rest eq_refl) in Hout as (k & _ & Hk & _).
    by apply elem_of_nil in Hk. }
  apply NoDup_cons in Hnodup as [Hfresh _].
  apply sublist_cons_r in Hsub as [Hsub|(rest & -> & _)].
  { exfalso. apply Hfresh. by eapply elem_of_sublist. }
  exists first, rest. split_and!; [done|done|].
  intros k ck c Hk Hck Hc.
  assert (Hin : k ∈ first :: sorted_rest).
  { rewrite Hperm. apply elem_of_seq. apply lookup_lt_Some in Hck.
    destruct Hinput as (Hlen & _). lia. }
  apply elem_of_cons in Hin as [->|Hin]; [done|].
  apply list_elem_of_split in Hin as (a & b & ->).
  eapply (sorted_indices_descending argsort boxes confs tids cids Hinput
            (first :: a) k b first); try done.
  by left.
Qed.

(** X12, on the frame of the two potholes. *)
Lemma most_confident_detection_is_kept_witness :
  ∃ first rest,
    [1; 0]%nat = first :: rest ∧
    argsort_first_wins (map PrimFloat.opp [0.6; 0.9]%float) !! 0%nat = Some first ∧
    ∀ k ck c, k ≠ first ->
      [0.6; 0.9]%float !! k = Some ck -> [0.6; 0.9]%float !! first = Some c ->
      PrimFloat.leb ck c = true.
Proof.
  apply (most_confident_detection_is_kept argsort_first_wins 50%float
           [(0, 0, 10, 10); (20, 20, 30, 30)] [0.6; 0.9]%float [1; 2] [0; 1]
           [1; 0]%nat).
  - repeat split; vm_compute; reflexivity.
  - discriminate.
  - vm_compute. reflexivity.
Defined.

(** ** The loop body of [process_frame] *)

(** The dict an analysis stores, as [process_frame] shows it. *)
Lemma shown_verdict sev rec :
  shown_analysis (Some (verdict sev rec)) = (sev, rec, get_severity_color sev).
Proof.
  unfold shown_analysis. rewrite bool_decide_eq_false_2.
  - unfold verdict. rewrite lookup_insert_eq.
    rewrite lookup_insert_ne by done. by rewrite lookup_insert_eq.
  - unfold verdict. apply insert_non_empty.
Qed.

Ltac unwrap64 :=
  repeat match goal with
         | |- context [wrap64 ?z] => rewrite (wrap64_small z) by lia
         end.

Ltac slice_cases :=
  unfold slice_length; cbv beta zeta;
  repeat match goal with
         | |- context [if ?a <? ?b then _ else _] => destruct (Z.ltb_spec a b)
         end;
  repeat match goal with
         | |- context [?a <? ?b] => destruct (Z.ltb_spec a b)
         end;
  simpl; try reflexivity; try lia.

(** A text whose background lies inside the frame is drawn. *)
Lemma draw_inside width height getTextSize text x y text_width text_height :
  getTextSize text = (text_width, text_height) ->
  0 <= text_width < 2 ^ 31 -> 0 <= text_height < 2 ^ 31 ->
  5 <= x < 2 ^ 31 -> x - 5 < width ->
  text_height + 5 <= y < 2 ^ 31 -> y - text_height - 5 < height ->
  draw_high_quality_text width height getTextSize text (x, y) = true.
Proof.
  intros Hsize Hw Hh Hx Hxw Hy Hyh. unfold draw_high_quality_text.
  rewrite Hsize. unwrap64.
  apply andb_true_iff. split; slice_cases.
Qed.

(** A text that starts within five pixels of the left edge is not: the
    left bound of its background is negative, and the slice that wraps
    around is empty. *)
Lemma draw_left_edge width height getTextSize text x y text_width text_height :
  getTextSize text = (text_width, text_height) ->
  0 <= text_width < 2 ^ 31 -> 0 <= text_height < 2 ^ 31 ->
  - 2 ^ 31 <= y < 2 ^ 31 ->
  0 <= x < 5 -> text_width + 10 <= width ->
  draw_high_quality_text width height getTextSize text (x, y) = false.
Proof.
  intros Hsize Hw Hh Hy Hx Hwide. unfold draw_high_quality_text.
  rewrite Hsize. unwrap64.
  apply andb_false_iff. right. slice_cases.
Qed.

(** Nor is a text whose background crosses the top edge. *)
Lemma draw_top_edge width height getTextSize text x y text_width text_height :
  getTextSize text = (text_width, text_height) ->
  0 <= text_width < 2 ^ 31 -> 0 <= text_height < 2 ^ 31 ->
  - 2 ^ 31 <= x < 2 ^ 31 ->
  - 5 <= y < text_height + 5 -> text_height + 10 <= height ->
  draw_high_quality_text width height getTextSize text (x, y) = false.
Proof.
  intros Hsize Hw Hh Hx Hy Htall. unfold draw_high_quality_text.
  rewrite Hsize. unwrap64.
  apply andb_false_iff. left. slice_cases.
Qed.

(** X13: for one filtered detection, the loop body of [process_frame]
    raises a [KeyError] on a class id that has no name; when the name in
    lower case is neither "pothole" nor "broken_edge" it skips the
    detection, leaving the analysis service untouched and starting no
    thread.  Otherwise it draws the label first: when that raises,
    [process_detection] has not been called; when it returns, the track is
    handed to [process_detection] under the lower-case class name, whose
    effects stay whatever follows, and the body either raises while drawing
    the severity or the recommendation, or appends a detection that
    carries the track id, that class name, the box, the confidence and the
    crop it was given. *)
Theorem process_frame_body_filters_by_class :
  (∀ interval encode width height getTextSize upper class_names analysis t
     early crop_ track_id_ b class_id confidence_,
     class_names !! class_id = None ->
     process_frame_body interval encode width height getTextSize upper
       class_names analysis t early crop_ track_id_ b class_id confidence_
     = (analysis, None, KeyError)) ∧
  (∀ interval encode width height getTextSize upper class_names analysis t
     early crop_ track_id_ b class_id confidence_ name,
     class_names !! class_id = Some name ->
     string_of_list_ascii (lower (list_ascii_of_string name)) ≠ "pothole" ->
     string_of_list_ascii (lower (list_ascii_of_string name)) ≠ "broken_edge" ->
     process_frame_body interval encode width height getTextSize upper
       class_names analysis t early crop_ track_id_ b class_id confidence_
     = (analysis, None, Continue)) ∧
  (∀ interval encode width height getTextSize upper class_names analysis t
     early crop_ track_id_ x1 y1 x2 y2 class_id confidence_ name,
     class_names !! class_id = Some name ->
     string_of_list_ascii (lower (list_ascii_of_string name)) = "pothole" ∨
     string_of_list_ascii (lower (list_ascii_of_string name)) = "broken_edge" ->
     let class_name_ := string_of_list_ascii (lower (list_ascii_of_string name)) in
     let body :=
       process_frame_body interval encode width height getTextSize upper
         class_names analysis t early crop_ track_id_ (x1, y1, x2, y2)
         class_id confidence_ in
     if draw_high_quality_text width height getTextSize
          (upper class_name_ +:+ " #" +:+ pretty track_id_)
          (x1, wrap64 (y1 - 10))
     then
       body.1
       = (process_detection interval encode analysis t track_id_ class_name_
            crop_ early).1 ∧
       (body.2 = TypeError ∨
        ∃ d, body.2 = Append d ∧
             track_id d = track_id_ ∧ class_name d = class_name_ ∧
             box_ d = (x1, y1, x2, y2) ∧ confidence d = confidence_ ∧
             crop d = crop_)
     else body = (analysis, None, TypeError)).
Proof.
  split_and!.
  - intros * Hname. unfold process_frame_body.
    destruct b as [[[x1 y1] x2] y2]. by rewrite Hname.
  - intros * Hname Hp He. unfold process_frame_body.
    destruct b as [[[x1 y1] x2] y2]. rewrite Hname.
    by rewrite !bool_decide_eq_false_2.
  - intros * Hname Hclass class_name_ body. subst body.
    unfold process_frame_body. rewrite Hname. fold class_name_.
    assert (bool_decide (class_name_ = "pothole")
            || bool_decide (class_name_ = "broken_edge") = true) as ->.
    { apply orb_true_iff.
      destruct Hclass as [H|H]; [left|right]; by apply bool_decide_eq_true. }
    destruct (draw_high_quality_text _ _ _ _ _); [|done].
    destruct (process_detection _ _ _ _ _ _ _ _) as [[analysis1 started] result].
    destruct (shown_analysis result) as [[severity_ recommendation_] c].
    destruct (draw_high_quality_text _ _ _ _ _); [|by split; [|left]].
    destruct (draw_high_quality_text _ _ _ _ _); [|by split; [|left]].
    split; [done|]. right. by eexists.
Qed.

(** X13, on a frame of [config.py]'s size, for track 7 two seconds after
    it was sent for analysis: a class id without a name, a manhole cover,
    and a pothole in a box away from the edges. *)
Lemma process_frame_body_filters_by_class_witness :
  let body :=
    process_frame_body config.ANALYSIS_INTERVAL (λ _, "")
      config.TARGET_WIDTH config.TARGET_HEIGHT text_size_8_by_9 upper_a_to_z
      {[0 := "Pothole"; 1 := "Manhole"]}
      {| last_sent_times := <[7 := 98%float]> ∅; track_results := ∅ |}
      100%float None
      {| shape := [60; 80; 3]; data := [] |} 7 (100, 200, 180, 260) in
  body 5 0.9%float
  = ({| last_sent_times := <[7 := 98%float]> ∅; track_results := ∅ |},
     None, KeyError) ∧
  body 1 0.9%float
  = ({| last_sent_times := <[7 := 98%float]> ∅; track_results := ∅ |},
     None, Continue) ∧
  (body 0 0.9%float).1
  = ({| last_sent_times := <[7 := 98%float]> ∅; track_results := ∅ |}, None) ∧
  (body 0 0.9%float).2
  = Append {| track_id := 7; class_name := "pothole";
              box_ := (100, 200, 180, 260); confidence := 0.9%float;
              severity := "low"; recommendation := "Analyzing...";
              crop := {| shape := [60; 80; 3]; data := [] |} |}.
Proof.
  intros body.
  destruct process_frame_body_filters_by_class as (Hunknown & Hother & Hreported).
  split_and!.
  - by apply Hunknown.
  - by apply (Hother _ _ _ _ _ _ _ _ _ _ _ _ _ _ _ "Manhole").
  - pose proof (Hreported config.ANALYSIS_INTERVAL (λ _, "")
                  config.TARGET_WIDTH config.TARGET_HEIGHT text_size_8_by_9
                  upper_a_to_z {[0 := "Pothole"; 1 := "Manhole"]}
                  {| last_sent_times := <[7 := 98%float]> ∅;
                     track_results := ∅ |}
                  100%float None
                  {| shape := [60; 80; 3]; data := [] |} 7 100 200 180 260 0
                  0.9%float "Pothole" eq_refl (or_introl eq_refl)) as H.
    vm_compute in H. vm_compute. exact (proj1 H).
  - vm_compute. reflexivity.
Defined.

(** X14: the detection that the loop body of [process_frame] appends
    carries the severity and the recommendation stored for the track at the
    time [process_detection] reads them: those stored before the call,
    unless the thread the call has started has already run to its end. *)
Theorem process_frame_body_shows_the_stored_verdict :
  (∀ interval encode width height getTextSize upper class_names analysis t
     early crop_ track_id_ b class_id confidence_ sev rec analysis1 started d,
     process_frame_body interval encode width height getTextSize upper
       class_names analysis t early crop_ track_id_ b class_id confidence_
     = (analysis1, started, Append d) ->
     track_results (with_early_thread analysis1 started early) !! track_id_
       = Some (verdict sev rec) ->
     severity d = sev ∧ recommendation d = rec) ∧
  (∀ interval encode width height getTextSize upper class_names analysis t
     early crop_ track_id_ b class_id confidence_ sev rec analysis1 started d,
     process_frame_body interval encode width height getTextSize upper
       class_names analysis t early crop_ track_id_ b class_id confidence_
     = (analysis1, started, Append d) ->
     started = None \/ early = None ->
     track_results analysis !! track_id_ = Some (verdict sev rec) ->
     severity d = sev ∧ recommendation d = rec).
Proof.
  assert (Hread :
    ∀ interval encode width height getTextSize upper class_names analysis t
      early crop_ track_id_ b class_id confidence_ sev rec analysis1 started d,
      process_frame_body interval encode width height getTextSize upper
        class_names analysis t early crop_ track_id_ b class_id confidence_
      = (analysis1, started, Append d) ->
      track_results (with_early_thread analysis1 started early) !! track_id_
        = Some (verdict sev rec) ->
      severity d = sev ∧ recommendation d = rec).
  { intros * Hbody Hstored.
    destruct (process_frame_body_appends _ _ _ _ _ _ _ _ _ _ _ _ _ _ _ _ _ _ Hbody)
      as (name & _ & _ & _ & Hobs & Hshown & _).
    rewrite process_detection_result, Hobs in Hshown. simpl in Hshown.
    rewrite Hstored, shown_verdict in Hshown. simpl in Hshown.
    by injection Hshown as -> ->. }
  split; [exact Hread|].
  intros * Hbody Hquiet Hstored.
  apply (Hread _ _ _ _ _ _ _ _ _ _ _ _ _ _ _ _ _ _ _ _ Hbody).
  destruct (process_frame_body_appends _ _ _ _ _ _ _ _ _ _ _ _ _ _ _ _ _ _ Hbody)
    as (name & _ & _ & _ & Hobs & _).
  destruct (process_detection_decision _ _ _ _ _ _ _ _ _ _ _ Hobs)
    as (_ & Hdone & Hnone & _).
  destruct started as [thread|].
  - destruct Hquiet as [?| ->]; [done|]. simpl.
    destruct Hdone as (_ & _ & ->); [by eexists|done].
  - simpl. by rewrite (Hnone eq_refl).
Qed.

(** X14, on track 7 once its analysis said "high", seen a second after it
    was sent for analysis again. *)
Lemma process_frame_body_shows_the_stored_verdict_witness :
  let analysis :=
    {| last_sent_times := <[7 := 100%float]> ∅;
       track_results := <[7 := verdict "high" "Repair immediately."]> ∅ |} in
  ∃ d,
    process_frame_body config.ANALYSIS_INTERVAL (λ _, "")
      config.TARGET_WIDTH config.TARGET_HEIGHT text_size_8_by_9 upper_a_to_z
      {[0 := "Pothole"]} analysis 101%float None
      {| shape := [60; 80; 3]; data := [] |} 7 (100, 200, 180, 260) 0 0.9%float
    = (analysis, None, Append d) ∧
    severity d = "high" ∧ recommendation d = "Repair immediately.".
Proof.
  intros analysis.
  eexists. split; [vm_compute; reflexivity|].
  eapply (proj2 process_frame_body_shows_the_stored_verdict
            config.ANALYSIS_INTERVAL (λ _, "")
            config.TARGET_WIDTH config.TARGET_HEIGHT text_size_8_by_9
            upper_a_to_z {[0 := "Pothole"]} analysis 101%float None
            {| shape := [60; 80; 3]; data := [] |} 7 (100, 200, 180, 260) 0
            0.9%float);
    [vm_compute; reflexivity|by left|reflexivity].
Defined.

(** X18: [draw_high_quality_text] returns when the background of the text
    lies inside the frame, and raises a [TypeError] when the text starts
    within five pixels of the left edge or its background crosses the top
    edge (the text being narrower and lower than the frame by ten pixels).
    So a detection of a reported class whose box begins within five pixels
    of the left edge makes the loop body of [process_frame] raise before
    [process_detection] is called. *)
Theorem text_at_an_edge_raises :
  (∀ width height getTextSize text x y text_width text_height,
     getTextSize text = (text_width, text_height) ->
     0 <= text_width < 2 ^ 31 -> 0 <= text_height < 2 ^ 31 ->
     - 2 ^ 31 <= x < 2 ^ 31 -> - 2 ^ 31 <= y < 2 ^ 31 ->
     (5 <= x -> x - 5 < width ->
      text_height + 5 <= y -> y - text_height - 5 < height ->
      draw_high_quality_text width height getTextSize text (x, y) = true) ∧
     (0 <= x < 5 -> text_width + 10 <= width ->
      draw_high_quality_text width height getTextSize text (x, y) = false) ∧
     (- 5 <= y < text_height + 5 -> text_height + 10 <= height ->
      draw_high_quality_text width height getTextSize text (x, y) = false)) ∧
  (∀ interval encode width height getTextSize upper class_names analysis t
     early crop_ track_id_ x1 y1 x2 y2 class_id confidence_ name text_width
     text_height,
     class_names !! class_id = Some name ->
     string_of_list_ascii (lower (list_ascii_of_string name)) = "pothole" ∨
     string_of_list_ascii (lower (list_ascii_of_string name)) = "broken_edge" ->
     getTextSize
       (upper (string_of_list_ascii (lower (list_ascii_of_string name)))
        +:+ " #" +:+ pretty track_id_)
     = (text_width, text_height) ->
     0 <= text_width < 2 ^ 31 -> 0 <= text_height < 2 ^ 31 ->
     text_width + 10 <= width ->
     0 <= x1 < 5 -> 0 <= y1 < 2 ^ 31 ->
     process_frame_body interval encode width height getTextSize upper
       class_names analysis t early crop_ track_id_ (x1, y1, x2, y2) class_id
       confidence_
     = (analysis, None, TypeError)).
Proof.
  split.
  - intros * Hsize Hw Hh Hx Hy. split_and!.
    + intros. by eapply draw_inside; try done; lia.
    + intros. by eapply draw_left_edge.
    + intros. by eapply draw_top_edge.
  - intros * Hname Hclass Hsize Hw Hh Hwide Hx Hy.
    unfold process_frame_body. rewrite Hname.
    assert (bool_decide
              (string_of_list_ascii (lower (list_ascii_of_string name)) = "pothole")
            || bool_decide
                 (string_of_list_ascii (lower (list_ascii_of_string name))
                  = "broken_edge") = true) as ->.
    { apply orb_true_iff.
      destruct Hclass as [H|H]; [left|right]; by apply bool_decide_eq_true. }
    rewrite (draw_left_edge _ _ _ _ _ _ text_width text_height); try done.
    rewrite wrap64_small; lia.
Qed.

(** X18, on the pothole of track 7 in the box (0, 0, 4, 4). *)
Lemma text_at_an_edge_raises_witness :
  process_frame_body config.ANALYSIS_INTERVAL (λ _, "")
    config.TARGET_WIDTH config.TARGET_HEIGHT text_size_8_by_9 upper_a_to_z
    {[0 := "Pothole"]} analysis_service.init 100%float None
    {| shape := [4; 4; 3]; data := [] |} 7 (0, 0, 4, 4) 0 0.9%float
  = (analysis_service.init, None, TypeError).
Proof.
  apply (proj2 text_at_an_edge_raises config.ANALYSIS_INTERVAL (λ _, "")
           config.TARGET_WIDTH config.TARGET_HEIGHT text_size_8_by_9
           upper_a_to_z {[0 := "Pothole"]} analysis_service.init 100%float None
           {| shape := [4; 4; 3]; data := [] |} 7 0 0 4 4 0 0.9%float "Pothole"
           80 9).
  - reflexivity.
  - by left.
  - vm_compute. reflexivity.
  - lia.
  - lia.
  - unfold config.TARGET_WIDTH. lia.
  - lia.
  - lia.
Defined.

(** ** The throttle over a run of events *)

(** A thread that runs to its end, early or late, leaves the dispatch
    times alone. *)
Lemma thread_run_last_sent_times self response thread :
  last_sent_times (thread_run self response thread) = last_sent_times self.
Proof.
  destruct (thread_run_results self response thread) as [[v ->]| ->]; done.
Qed.

Lemma with_early_thread_last_sent_times self started early :
  last_sent_times (with_early_thread self started early) = last_sent_times self.
Proof.
  destruct started as [thread|], early as [response|]; simpl; try done.
  apply thread_run_last_sent_times.
Qed.

Lemma run_events_each_due interval encode events :
  ∀ self,
    each_due interval (last_sent_times self)
      (run_events interval encode self events).2.
Proof.
  induction events as [|[t tr dmg crop_ early|response th] rest IH]; intros self.
  - exact I.
  - simpl.
    destruct (process_detection interval encode self t tr dmg crop_ early)
      as [[self1 started] result] eqn:Hobs.
    specialize (IH (with_early_thread self1 started early)).
    rewrite with_early_thread_last_sent_times in IH.
    destruct (run_events interval encode (with_early_thread self1 started early)
                rest) as [self2 log].
    destruct (process_detection_decision _ _ _ _ _ _ _ _ _ _ _ Hobs)
      as (Hdue & Hstarted & Hnone & _).
    destruct started as [thread|]; simpl in *.
    + destruct Hstarted as (Hthread & Hlast & _); [by eexists|].
      injection Hthread as ->. simpl.
      split; [by apply Hdue|]. by rewrite <- Hlast.
    + by rewrite (Hnone eq_refl) in IH.
  - simpl. rewrite <- (thread_run_last_sent_times self response th). apply IH.
Qed.

(** With no dispatch of the track in between, the next dispatch of a track
    is due with respect to the time on record. *)
Lemma each_due_next interval times log1 t2 th2 log2 t1 :
  each_due interval times (log1 ++ (t2, th2) :: log2) ->
  times !! arg_track_id th2 = Some t1 ->
  (∀ x, x ∈ log1 -> arg_track_id x.2 ≠ arg_track_id th2) ->
  PrimFloat.ltb interval (PrimFloat.sub t2 t1) = true.
Proof.
  revert times. induction log1 as [|[t th] log1 IH]; intros times Hdue Htime Hnone.
  - simpl in Hdue. destruct Hdue as [Hdue _]. by rewrite Htime in Hdue.
  - simpl in Hdue. destruct Hdue as [_ Hdue].
    apply (IH _ Hdue).
    + rewrite lookup_insert_ne; [done|]. apply (Hnone (t, th)). by left.
    + intros x Hx. apply Hnone. by right.
Qed.

Lemma each_due_consecutive interval times log0 t1 th1 log1 t2 th2 log2 :
  each_due interval times (log0 ++ (t1, th1) :: log1 ++ (t2, th2) :: log2) ->
  arg_track_id th1 = arg_track_id th2 ->
  (∀ x, x ∈ log1 -> arg_track_id x.2 ≠ arg_track_id th1) ->
  PrimFloat.ltb interval (PrimFloat.sub t2 t1) = true.
Proof.
  revert times. induction log0 as [|[t th] log0 IH]; intros times Hdue Hsame Hnone.
  - simpl in Hdue. destruct Hdue as [_ Hdue].
    apply (each_due_next _ _ _ _ _ _ t1 Hdue).
    + rewrite <- Hsame. apply lookup_insert_eq.
    + intros x Hx. rewrite <- Hsame. by apply Hnone.
  - simpl in Hdue. destruct Hdue as [_ Hdue]. by apply (IH _ Hdue).
Qed.

(** X15: over any run of calls to [process_detection] and of analysis
    threads completing, before the call that started them returns or
    later, two successive dispatches of one track are more
    than the interval apart: the difference of their times, as the code
    computes it, exceeds the interval. *)
Theorem successive_dispatches_are_spaced :
  ∀ interval encode self events log0 t1 th1 log1 t2 th2 log2,
    (run_events interval encode self events).2
      = log0 ++ (t1, th1) :: log1 ++ (t2, th2) :: log2 ->
    arg_track_id th1 = arg_track_id th2 ->
    (∀ x, x ∈ log1 -> arg_track_id x.2 ≠ arg_track_id th1) ->
    PrimFloat.ltb interval (PrimFloat.sub t2 t1) = true.
Proof.
  intros interval encode self events log0 t1 th1 log1 t2 th2 log2 Hlog Hsame Hnone.
  pose proof (run_events_each_due interval encode events self) as Hdue.
  rewrite Hlog in Hdue.
  by eapply each_due_consecutive.
Qed.

(** X15, on track 7 seen at 100, 103 and 106 while its first analysis
    fails in between. *)
Lemma successive_dispatches_are_spaced_witness :
  PrimFloat.ltb config.ANALYSIS_INTERVAL (PrimFloat.sub 106 100) = true.
Proof.
  apply (successive_dispatches_are_spaced config.ANALYSIS_INTERVAL (λ _, "")
           analysis_service.init
           [Observed 100 7 "pothole" {| shape := [4; 4; 3]; data := [] |} None;
            Observed 103 7 "pothole" {| shape := [4; 4; 3]; data := [] |} None;
            Completed (Fails (Exception_ "timed out"))
              {| arg_base64_image := ""; arg_track_id := 7;
                 arg_damage_type := "pothole" |};
            Observed 106 7 "pothole" {| shape := [4; 4; 3]; data := [] |}
              (Some (Fails (Exception_ "timed out")))]
           [] 100%float
           {| arg_base64_image := ""; arg_track_id := 7;
              arg_damage_type := "pothole" |}
           [] 106%float
           {| arg_base64_image := ""; arg_track_id := 7;
              arg_damage_type := "pothole" |}
           []).
  - vm_compute. reflexivity.
  - reflexivity.
  - intros x Hx. by apply elem_of_nil in Hx.
Defined.

(** ** Boxes apart, and arrays that do not match *)

Lemma overlap_apart (box1 box2 : box) :
  apart box1 box2 -> calculate_overlap_percentage box1 box2 = Some 0%float.
Proof.
  destruct box1 as [[[x1_1 y1_1] x2_1] y2_1], box2 as [[[x1_2 y1_2] x2_2] y2_2].
  unfold apart, calculate_overlap_percentage. intros Hapart.
  destruct (_ || _) eqn:Hguard; [reflexivity|].
  apply orb_false_iff in Hguard as [Hx Hy].
  apply Z.leb_gt in Hx, Hy. lia.
Qed.

(** X16: boxes that do not intersect, or only touch, have overlap 0.0;
    so, with a threshold that is not negative, the Overlap Resolver drops
    nothing from a well-formed frame whose boxes are pairwise so. *)
Theorem frame_of_boxes_apart_is_kept_whole :
  (∀ box1 box2,
     apart box1 box2 -> calculate_overlap_percentage box1 box2 = Some 0%float) ∧
  (∀ argsort overlap_threshold boxes confidences track_ids class_ids
     keep_indices,
     resolver_input argsort boxes confidences track_ids class_ids ->
     PrimFloat.ltb overlap_threshold 0 = false ->
     (∀ i k bi bk, i ≠ k -> boxes !! i = Some bi -> boxes !! k = Some bk ->
                   apart bi bk) ->
     kept_indices argsort overlap_threshold boxes confidences class_ids
       = Some keep_indices ->
     ∀ i, (i < length boxes)%nat -> i ∈ keep_indices).
Proof.
  split; [apply overlap_apart|].
  intros argsort thr boxes confs tids cids keep Hinput Hthr Hapart Hkept i Hi.
  destruct (resolver_run argsort thr boxes confs tids cids Hinput)
    as (keep' & ? & ? & ? & ? & Hkept' & _ & _ & _ & _ & _ & _ & Hrule).
  assert (keep' = keep) as -> by congruence.
  pose proof (sorted_indices_NoDup argsort boxes confs tids cids Hinput) as Hnodup.
  assert (Hin : i ∈ argsort (map PrimFloat.opp confs)).
  { rewrite (sorted_indices_perm argsort boxes confs tids cids Hinput).
    apply elem_of_seq. lia. }
  apply list_elem_of_split in Hin as (pre & post & Hsplit).
  destruct (decide (i ∈ keep)) as [|Hout]; [done|].
  apply (Hrule pre i post Hsplit) in Hout
    as (k & _ & Hk & (bi & bk & _ & ov & Hbi & Hbk & _ & _ & Hov & Hlt)).
  assert (Hne : i ≠ k).
  { intros ->. rewrite Hsplit in Hnodup.
    apply NoDup_app in Hnodup as (_ & Hdisjoint & _).
    apply (Hdisjoint k Hk). by left. }
  rewrite (overlap_apart bi bk) in Hov by by eapply Hapart.
  injection Hov as <-. congruence.
Qed.

(** X16, on two potholes side by side. *)
Lemma frame_of_boxes_apart_is_kept_whole_witness :
  filter_overlapping_detections argsort_first_wins 50%float
    [(0, 0, 10, 10); (10, 0, 20, 10)] [0.9; 0.6]%float [1; 2] [0; 0]
  = Some ([(0, 0, 10, 10); (10, 0, 20, 10)], [0.9; 0.6]%float, [1; 2], [0; 0]) ∧
  0%nat ∈ [0; 1]%nat ∧ 1%nat ∈ [0; 1]%nat.
Proof.
  split; [vm_compute; reflexivity|].
  split;
    apply (proj2 frame_of_boxes_apart_is_kept_whole argsort_first_wins 50%float
             [(0, 0, 10, 10); (10, 0, 20, 10)] [0.9; 0.6]%float [1; 2] [0; 0]
             [0; 1]%nat);
    try (repeat split; vm_compute; reflexivity);
    try (simpl; lia);
    intros [|[|i]] [|[|k]] bi bk Hne Hbi Hbk; try done; simpl in Hbi, Hbk;
      simplify_eq; simpl; lia.
Defined.

(** The outer loop raises as soon as an index has no box or no class. *)
Lemma resolve_loop_raises thr boxes class_ids sorted_indices i :
  i ∈ sorted_indices ->
  boxes !! i = None \/ class_ids !! i = None ->
  ∀ keep_indices,
    resolve_loop thr boxes class_ids sorted_indices keep_indices = None.
Proof.
  intros Hin Hmissing.
  induction sorted_indices as [|j rest IH]; intros keep;
    [by apply elem_of_nil in Hin|].
  simpl. apply elem_of_cons in Hin as [->|Hin].
  - destruct Hmissing as [->| ->]; [done|]. by destruct (boxes !! j).
  - destruct (boxes !! j); [|done]. simpl.
    destruct (class_ids !! j); [|done]. simpl.
    destruct (keep_current_loop _ _ _ _ _ _); [|done]. simpl.
    by apply IH.
Qed.

(** X17: [filter_overlapping_detections] with no boxes returns its four
    arguments as they are, whatever the other three hold; with boxes, and a
    sorted order that meets the contract, it raises an [IndexError] when
    some detection that has a confidence has no box or no class id,
    instead of returning a part of the frame. *)
Theorem arrays_that_do_not_match :
  (∀ argsort overlap_threshold confidences track_ids class_ids,
     filter_overlapping_detections argsort overlap_threshold
       [] confidences track_ids class_ids
     = Some ([], confidences, track_ids, class_ids)) ∧
  (∀ argsort overlap_threshold boxes confidences track_ids class_ids i,
     is_argsort (map PrimFloat.opp confidences)
                (argsort (map PrimFloat.opp confidences)) = true ->
     boxes ≠ [] ->
     (i < length confidences)%nat ->
     boxes !! i = None \/ class_ids !! i = None ->
     filter_overlapping_detections argsort overlap_threshold
       boxes confidences track_ids class_ids = None).
Proof.
  split; [reflexivity|].
  intros argsort thr boxes confs tids cids i Hsort Hboxes Hi Hmissing.
  unfold filter_overlapping_detections, kept_indices.
  destruct boxes as [|b boxes]; [done|]. simpl length. simpl Nat.eqb. cbv iota.
  rewrite (resolve_loop_raises thr (b :: boxes) cids _ i); [done| |done].
  rewrite (is_argsort_perm _ _ Hsort). apply elem_of_seq.
  rewrite length_map. lia.
Qed.

(** X17, on two boxes with one class id. *)
Lemma arrays_that_do_not_match_witness :
  filter_overlapping_detections argsort_first_wins 50%float
    [(0, 0, 10, 10); (20, 20, 30, 30)] [0.9; 0.6]%float [1; 2] [0] = None.
Proof.
  apply (proj2 arrays_that_do_not_match argsort_first_wins 50%float
           [(0, 0, 10, 10); (20, 20, 30, 30)] [0.9; 0.6]%float [1; 2] [0]
           1%nat).
  - vm_compute. reflexivity.
  - discriminate.
  - simpl. lia.
  - by right.
Defined.
